(** * Oracle price integrity lab: anomaly detectors, AMM swap and swap-trace summary

    Shallow embedding of
      - [oracle_anomaly_demo.py]  (benchmark aggregator, three detectors, orchestrator),
      - [flashloan_simulator.py]  (constant-product swap),
      - [swap_trace_decoder.py]   (per-pool swap summary).

    Python [float]s are kept behind a small interface, [Float]; every source
    function is written once over that interface.  Two instances are given:
      - [Binary64.float64]: IEEE-754 binary64 as computed by [SpecFloat]
        (what CPython and numpy compute with);
      - [Exact.xq]: exact rational arithmetic with one NaN, the arithmetic
        the source's formulas are written for.
    Structural facts are proved for every instance, arithmetic laws in the
    exact instance, and concrete runs are evaluated in binary64. *)

From Stdlib Require Import ZArith QArith Qround Qabs Qminmax Lia Lqa SpecFloat.
From stdpp Require Import base gmap strings list fin_maps sorting.

Local Open Scope Z_scope.

(** ** Exceptions *)

Inductive exn := ZeroDivisionError | ValueError.

Inductive result (A : Type) :=
| Ok (a : A)
| Raise (e : exn).
Arguments Ok {A} a.
Arguments Raise {A} e.

#[export] Instance result_ret : MRet result := fun A a => Ok a.
#[export] Instance result_bind : MBind result := fun A B k m =>
  match m with
  | Ok a => k a
  | Raise e => Raise e
  end.

(** ** The float interface *)

Class Float (F : Type) := {
  fnan : F;                       (* float("nan") *)
  of_Z : Z -> F;                  (* float(n) for an integer n *)
  fisnan : F -> bool;             (* math.isnan *)
  fadd : F -> F -> F;
  fsub : F -> F -> F;
  fmul : F -> F -> F;
  fdiv : F -> F -> F;             (* IEEE division, total (as numpy applies it) *)
  fabs : F -> F;
  feqb : F -> F -> bool;          (* == *)
  fltb : F -> F -> bool;          (* <  *)
  fleb : F -> F -> bool;          (* <= *)
  ffloor : F -> Z;                (* numpy.floor, as an index *)
}.

Abbreviation datetime := Z (only parsing).

Section PythonFloat.
Context {F : Type} `{Float F}.

(** Python's scalar [a / b] on floats raises when [b == 0]. *)
Definition py_div (a b : F) : result F :=
  if feqb b (of_Z 0) then Raise ZeroDivisionError else Ok (fdiv a b).

(** ** flashloan_simulator.py *)

Definition uniswap_v2_price (reserve_in reserve_out : F) : result F :=
  py_div reserve_out reserve_in.

Definition uniswap_v2_swap (reserve_in reserve_out amount_in fee_bps : F)
  : result (F * F * F) :=
  let fee := fdiv fee_bps (of_Z 10000) in
  let amount_in_with_fee := fmul amount_in (fsub (of_Z 1) fee) in
  let numerator := fmul amount_in_with_fee reserve_out in
  let denominator := fadd reserve_in amount_in_with_fee in
  amount_out ← py_div numerator denominator;
  let new_reserve_in := fadd reserve_in amount_in in
  let new_reserve_out := fsub reserve_out amount_out in
  Ok (new_reserve_in, new_reserve_out, amount_out).

(** ** oracle_anomaly_demo.py *)

(** A [datetime] is its count of microseconds on the proleptic calendar
    (the abbreviation [datetime] above); [a - b] on datetimes is then
    subtraction in [Z], and [timedelta.total_seconds()] divides the
    microseconds by [10**6] (in binary64 the integer operands are exact
    below [2**53]). *)

Record VenuePoint := {
  ts : datetime;
  venue : string;
  price : F;
  liquidity : F;
}.

Record BenchmarkPoint := {
  bp_ts : datetime;
  benchmark_price : F;
  staleness_flag : bool;
  thin_liquidity_flag : bool;
  flash_loan_flag : bool;
}.

Definition total_seconds (delta : Z) : F := fdiv (of_Z delta) (of_Z 1000000).

(** [ndarray.sum()]: accumulation from [0.0], [0.0] on the empty array.
    numpy adds long arrays pairwise; the order of the additions is
    immaterial in exact arithmetic and for the one- and two-element arrays
    evaluated in binary64 below. *)
Definition np_sum (a : list F) : F := foldl fadd (of_Z 0) a.

(** The local [weights = liqs / liqs.sum()] of the aggregator. *)
Definition weights_of (points : list VenuePoint) : list F :=
  let liqs := liquidity <$> points in
  (λ l, fdiv l (np_sum liqs)) <$> liqs.

Definition compute_liquidity_weighted_benchmark (points : list VenuePoint) : F * F :=
  let prices := price <$> points in
  let liqs := liquidity <$> points in
  if fleb (np_sum liqs) (of_Z 0) then (fnan, of_Z 0)
  else
    let weights := weights_of points in
    let benchmark := np_sum (zip_with fmul weights prices) in
    let total_liq := np_sum liqs in
    (benchmark, total_liq).

(** The denominators the aggregator divides by, in evaluation order:
    none on the guarded branch, the liquidity sum once per venue otherwise. *)
Definition compute_liquidity_weighted_benchmark_divisors
    (points : list VenuePoint) : list F :=
  let liqs := liquidity <$> points in
  if fleb (np_sum liqs) (of_Z 0) then []
  else (λ _, np_sum liqs) <$> liqs.

Definition default_max_staleness_seconds : Z := 40.

Definition detect_staleness (current_ts last_update_ts : datetime)
    (max_staleness_seconds : Z) : bool :=
  fltb (of_Z max_staleness_seconds) (total_seconds (current_ts - last_update_ts)).

(** [numpy.quantile(a, q)] with its default method, "linear", after
    numpy's documentation: [q] outside [0, 1] is a [ValueError]; a NaN in
    the data gives NaN; otherwise, on the sorted data, the value at the
    virtual index [(n - 1) * q], interpolated linearly between its two
    neighbours (numpy takes the interpolation from the upper neighbour
    when the fractional part is at least one half). *)
Definition lerp (a b t : F) : F :=
  let diff_b_a := fsub b a in
  if fleb (fdiv (of_Z 1) (of_Z 2)) t
  then fsub b (fmul diff_b_a (fsub (of_Z 1) t))
  else fadd a (fmul diff_b_a t).

Definition quantile_is_valid (q : F) : bool :=
  fleb (of_Z 0) q && fleb q (of_Z 1).

Definition np_quantile (a : list F) (q : F) : result F :=
  if negb (quantile_is_valid q) then Raise ValueError
  else if existsb fisnan a then Ok fnan
  else
    let arr := merge_sort (λ x y, fleb x y) a in
    let n := Z.of_nat (length a) in
    let virtual_index := fmul (of_Z (n - 1)) q in
    let above := fleb (of_Z (n - 1)) virtual_index in
    let previous_index := if above then n - 1 else ffloor virtual_index in
    let next_index := if above then n - 1 else previous_index + 1 in
    let gamma := fsub virtual_index (of_Z (ffloor virtual_index)) in
    Ok (lerp (nth (Z.to_nat previous_index) arr fnan)
             (nth (Z.to_nat next_index) arr fnan) gamma).

(** The literal [0.2]: the float nearest to one fifth. *)
Definition default_quantile_threshold : F := fdiv (of_Z 1) (of_Z 5).

Definition detect_thin_liquidity (total_liquidity : F)
    (rolling_liquidity : list F) (quantile_threshold : F) : result bool :=
  if (length rolling_liquidity <? 10)%nat then Ok false
  else
    q ← np_quantile rolling_liquidity quantile_threshold;
    Ok (fltb total_liquidity q).

Definition default_spike_threshold_pct : F := of_Z 4.

(** [l[-3:]] *)
Definition last3 (l : list F) : list F := drop (length l - 3) l.

Definition detect_flash_loan_pattern (recent_benchmarks : list F)
    (spike_threshold_pct : F) : result bool :=
  if (length recent_benchmarks <? 3)%nat then Ok false
  else
    match last3 recent_benchmarks with
    | [prev_prev; prev; current] =>
        if fisnan prev_prev || fisnan prev || fisnan current then Ok false
        else
          r ← py_div (fsub current prev_prev) prev_prev;
          let jump_pct := fmul r (of_Z 100) in
          if fltb jump_pct spike_threshold_pct then Ok false
          else
            let revert_toward_prev :=
              fltb (fabs (fsub prev prev_prev)) (fabs (fsub current prev_prev)) in
            Ok revert_toward_prev
    | _ => Raise ValueError
    end.

(** *** The orchestrator: the body of [run_demo] from the grouping on,
    with the generated series as its argument. *)

Definition group_by_ts (series : list VenuePoint) : gmap Z (list VenuePoint) :=
  foldl (λ points_by_ts p,
           <[ts p := default [] (points_by_ts !! ts p) ++ [p]]> points_by_ts)
        ∅ series.

Definition sorted_keys (points_by_ts : gmap Z (list VenuePoint)) : list Z :=
  merge_sort Z.le (elements (dom points_by_ts)).

Record DetectionState := {
  benchmark_history : list BenchmarkPoint;
  rolling_liq : list F;
  rolling_benchmarks : list F;
  last_update_ts : option datetime;
}.

Definition initial_state : DetectionState :=
  {| benchmark_history := []; rolling_liq := [];
     rolling_benchmarks := []; last_update_ts := None |}.

(** One iteration of the loop over [sorted_ts]. *)
Definition step (st : DetectionState) (t : datetime)
    (venue_points : list VenuePoint) : result DetectionState :=
  let '(benchmark_price, total_liq) :=
    compute_liquidity_weighted_benchmark venue_points in
  let last_update_ts0 :=
    match last_update_ts st with None => t | Some l => l end in
  let staleness_flag :=
    detect_staleness t last_update_ts0 default_max_staleness_seconds in
  let rolling_liq' := rolling_liq st ++ [total_liq] in
  thin_liq_flag ←
    detect_thin_liquidity total_liq rolling_liq' default_quantile_threshold;
  let rolling_benchmarks' := rolling_benchmarks st ++ [benchmark_price] in
  flash_flag ←
    detect_flash_loan_pattern rolling_benchmarks' default_spike_threshold_pct;
  let last_update_ts1 :=
    if negb (fisnan benchmark_price) then t else last_update_ts0 in
  Ok {| benchmark_history :=
          benchmark_history st ++
            [ {| bp_ts := t; benchmark_price := benchmark_price;
                 staleness_flag := staleness_flag;
                 thin_liquidity_flag := thin_liq_flag;
                 flash_loan_flag := flash_flag |} ];
        rolling_liq := rolling_liq';
        rolling_benchmarks := rolling_benchmarks';
        last_update_ts := Some last_update_ts1 |}.

Fixpoint run_loop (points_by_ts : gmap Z (list VenuePoint))
    (sorted_ts : list datetime) (st : DetectionState) : result DetectionState :=
  match sorted_ts with
  | [] => Ok st
  | t :: rest =>
      st' ← step st t (default [] (points_by_ts !! t));
      run_loop points_by_ts rest st'
  end.

Definition run_state (series : list VenuePoint) : result DetectionState :=
  let points_by_ts := group_by_ts series in
  run_loop points_by_ts (sorted_keys points_by_ts) initial_state.

Definition run_demo (series : list VenuePoint) : result (list BenchmarkPoint) :=
  st ← run_state series;
  Ok (benchmark_history st).

(** ** swap_trace_decoder.py *)

Record LogEvent := {
  tx_hash : string;
  event_type : string;
  pool : string;
  token_in : string;
  token_out : string;
  amount_in : F;
  amount_out : F;
}.

(** [stats[k] += v] on a [defaultdict(float)]. *)
Definition add_to (stats : gmap string F) (k : string) (v : F) : gmap string F :=
  <[k := fadd (default (of_Z 0) (stats !! k)) v]> stats.

(** [summary[key][k] += v] on the nested [defaultdict]. *)
Definition add_flow (summary : gmap string (gmap string F))
    (key k : string) (v : F) : gmap string (gmap string F) :=
  <[key := add_to (default ∅ (summary !! key)) k v]> summary.

Definition summarize_event (summary : gmap string (gmap string F))
    (e : LogEvent) : gmap string (gmap string F) :=
  if negb (String.eqb (event_type e) "SWAP") then summary
  else
    let key := pool e in
    let summary := add_flow summary key (token_in e +:+ "_sold") (amount_in e) in
    add_flow summary key (token_out e +:+ "_bought") (amount_out e).

Definition summarize_swaps (events : list LogEvent)
  : gmap string (gmap string F) :=
  foldl summarize_event ∅ events.

End PythonFloat.

Arguments VenuePoint F : clear implicits.
Arguments BenchmarkPoint F : clear implicits.
Arguments DetectionState F : clear implicits.
Arguments LogEvent F : clear implicits.

(** ** IEEE-754 binary64 *)

Module Binary64.

Definition prec : Z := 53.
Definition emax : Z := 1024.

Definition float64 := spec_float.

Definition b64_of_Z (z : Z) : float64 := binary_normalize prec emax z 0 false.

Definition b64_isnan (x : float64) : bool :=
  match x with S754_nan => true | _ => false end.

(** Largest integer not above a finite value; 0 on infinities and NaN,
    where numpy's index computation is not defined. *)
Definition b64_floor (x : float64) : Z :=
  match x with
  | S754_finite s m e =>
      let v := if s then Z.neg m else Z.pos m in
      if (0 <=? e)%Z then Z.shiftl v e else Z.shiftr v (- e)
  | _ => 0
  end.

#[export] Instance float64_Float : Float float64 := {
  fnan := S754_nan;
  of_Z := b64_of_Z;
  fisnan := b64_isnan;
  fadd := SFadd prec emax;
  fsub := SFsub prec emax;
  fmul := SFmul prec emax;
  fdiv := SFdiv prec emax;
  fabs := SFabs;
  feqb := SFeqb;
  fltb := SFltb;
  fleb := SFleb;
  ffloor := b64_floor;
}.

End Binary64.

(** ** Exact arithmetic: rationals and one NaN *)

Module Exact.

Inductive xq :=
| XNaN
| XNum (q : Q).

Definition xq_lift2 (f : Q -> Q -> Q) (x y : xq) : xq :=
  match x, y with
  | XNum p, XNum q => XNum (f p q)
  | _, _ => XNaN
  end.

(** Division by zero, which IEEE answers with an infinity or a NaN, is
    NaN here: the exact model has no infinities. *)
Definition xq_div (x y : xq) : xq :=
  match x, y with
  | XNum p, XNum q => if Qeq_bool q 0 then XNaN else XNum (p / q)
  | _, _ => XNaN
  end.

(** Every comparison with NaN is false. *)
Definition xq_cmp (f : Q -> Q -> bool) (x y : xq) : bool :=
  match x, y with
  | XNum p, XNum q => f p q
  | _, _ => false
  end.

Definition xq_isnan (x : xq) : bool :=
  match x with XNaN => true | XNum _ => false end.

Definition xq_abs (x : xq) : xq :=
  match x with XNaN => XNaN | XNum q => XNum (Qabs q) end.

Definition xq_floor (x : xq) : Z :=
  match x with XNaN => 0%Z | XNum q => Qfloor q end.

Definition Qlt_bool (p q : Q) : bool := negb (Qle_bool q p).

(** The rational a number stands for. *)
Definition xq_val (x : xq) : Q :=
  match x with XNaN => 0%Q | XNum q => q end.

(** The mathematical sum of a list of rationals. *)
Definition Qsum (l : list Q) : Q := foldr Qplus 0%Q l.

(** An observation inside the data model: numeric, with a positive price
    and a non-negative liquidity. *)
Definition well_formed_observation (p : VenuePoint xq) : Prop :=
  exists pr l : Q,
    price p = XNum pr /\ liquidity p = XNum l /\ (0 < pr)%Q /\ (0 <= l)%Q.

Definition nan_or_positive (b : xq) : Prop :=
  b = XNaN \/ exists v : Q, b = XNum v /\ (0 < v)%Q.

#[export] Instance xq_Float : Float xq := {
  fnan := XNaN;
  of_Z := fun z => XNum (inject_Z z);
  fisnan := xq_isnan;
  fadd := xq_lift2 Qplus;
  fsub := xq_lift2 Qminus;
  fmul := xq_lift2 Qmult;
  fdiv := xq_div;
  fabs := xq_abs;
  feqb := xq_cmp Qeq_bool;
  fltb := xq_cmp Qlt_bool;
  fleb := xq_cmp Qle_bool;
  ffloor := xq_floor;
}.

End Exact.

(** ** Vocabulary of the statements *)

Section Vocabulary.
Context {F : Type} `{Float F}.

(** What the loop reads as the last update before the detectors run:
    the stored timestamp, or the current one on the first pass. *)
Definition consulted_ts (st : DetectionState F) (t : datetime) : datetime :=
  match last_update_ts st with None => t | Some l => l end.

(** What [last_update_ts] can hold: nothing before the first step; then
    the first timestamp processed, or the timestamp of a record whose
    benchmark is a number. *)
Definition last_update_justified (st : DetectionState F) : Prop :=
  match last_update_ts st with
  | None => benchmark_history st = []
  | Some l =>
      head (bp_ts <$> benchmark_history st) = Some l \/
      exists r, r ∈ benchmark_history st /\ bp_ts r = l /\
                fisnan (benchmark_price r) = false
  end.

(** [summary[p][k]], if present. *)
Definition entry (summary : gmap string (gmap string F)) (p k : string)
  : option F :=
  default ∅ (summary !! p) !! k.

(** The amounts of the SWAP events of pool [p] that sell token [t], and
    of those that buy it, in event order. *)
Definition sold_flows (events : list (LogEvent F)) (p t : string) : list F :=
  amount_in <$>
    filter (λ e, event_type e = "SWAP" /\ pool e = p /\ token_in e = t) events.

Definition bought_flows (events : list (LogEvent F)) (p t : string) : list F :=
  amount_out <$>
    filter (λ e, event_type e = "SWAP" /\ pool e = p /\ token_out e = t) events.

End Vocabulary.

(** ** The rest of the sources *)

(** A numeric dict value: an [int] or a [float]. *)
Inductive pynum (F : Type) :=
| PyInt (z : Z)
| PyFloat (f : F).
Arguments PyInt {F} z.
Arguments PyFloat {F} f.

(** What [parse_logs] returns or raises: the only exception the typed dict
    below can cause is the [KeyError] of a missing key. *)
Inductive decoded (A : Type) :=
| Decoded (a : A)
| KeyError (key : string).
Arguments Decoded {A} a.
Arguments KeyError {A} key.

#[export] Instance decoded_ret : MRet decoded := fun A a => Decoded a.
#[export] Instance decoded_bind : MBind decoded := fun A B k m =>
  match m with
  | Decoded a => k a
  | KeyError key => KeyError key
  end.

Section RestOfSources.
Context {F : Type} `{Float F}.

(** *** cex_dex_divergence_monitor.py *)

Record DivergencePoint := {
  dv_ts : datetime;
  cex_price : F;
  dex_price : F;
  deviation_pct : F;
  flagged : bool;
}.

(** The literal [1.5]. *)
Definition default_warn_threshold_pct : F := fdiv (of_Z 3) (of_Z 2).

(** The prices arrive as numpy arrays (as [run_monitor] passes them), so
    [cp] and [dp] are numpy scalars and [/] is numpy's division, which
    does not raise; [zip] stops at the shortest of its three arguments. *)
Definition divergence_point (ts : datetime) (cp dp : F)
    (warn_threshold_pct : F) : DivergencePoint :=
  let deviation_pct := fmul (fdiv (fsub dp cp) cp) (of_Z 100) in
  let flagged := fleb warn_threshold_pct (fabs deviation_pct) in
  {| dv_ts := ts; cex_price := cp; dex_price := dp;
     deviation_pct := deviation_pct; flagged := flagged |}.

Fixpoint compute_divergence_points (ts_list : list datetime)
    (cex_prices dex_prices : list F) (warn_threshold_pct : F)
  : list DivergencePoint :=
  match ts_list, cex_prices, dex_prices with
  | ts :: ts_list, cp :: cex_prices, dp :: dex_prices =>
      divergence_point ts cp dp warn_threshold_pct ::
        compute_divergence_points ts_list cex_prices dex_prices warn_threshold_pct
  | _, _, _ => []
  end.

(** [num_flagged = sum(1 for p in points if p.flagged)] of [run_monitor]. *)
Definition num_flagged (points : list DivergencePoint) : nat :=
  length (filter (λ p, flagged p = true) points).

(** *** swap_trace_decoder.py: [parse_logs] *)

(** A raw log is a dict.  It is modelled by the seven keys [parse_logs]
    reads, each present or absent, with values of the types the [LogEvent]
    annotations give them: strings, and numbers for the two amounts. *)
Record RawLog := {
  raw_tx_hash : option string;
  raw_event_type : option string;
  raw_pool : option string;
  raw_token_in : option string;
  raw_token_out : option string;
  raw_amount_in : option (pynum F);
  raw_amount_out : option (pynum F);
}.

(** [r[key]] *)
Definition getitem {A} (field : option A) (key : string) : decoded A :=
  match field with
  | Some v => Decoded v
  | None => KeyError key
  end.

(** [float(x)] on a number. *)
Definition py_float (x : pynum F) : F :=
  match x with
  | PyInt z => of_Z z
  | PyFloat f => f
  end.

(** One pass of the loop body: [None] where the body [continue]s. *)
Definition parse_log (r : RawLog) : decoded (option (LogEvent F)) :=
  ty ← getitem (raw_event_type r) "event_type";
  if negb (String.eqb ty "SWAP" || String.eqb ty "TRANSFER") then Decoded None
  else
    tx_hash ← getitem (raw_tx_hash r) "tx_hash";
    event_type ← getitem (raw_event_type r) "event_type";
    pool ← getitem (raw_pool r) "pool";
    token_in ← getitem (raw_token_in r) "token_in";
    token_out ← getitem (raw_token_out r) "token_out";
    amount_in ← getitem (raw_amount_in r) "amount_in";
    amount_out ← getitem (raw_amount_out r) "amount_out";
    Decoded (Some {| tx_hash := tx_hash; event_type := event_type; pool := pool;
                     token_in := token_in; token_out := token_out;
                     amount_in := py_float amount_in;
                     amount_out := py_float amount_out |}).

Fixpoint parse_logs_from (events : list (LogEvent F)) (raw_logs : list RawLog)
  : decoded (list (LogEvent F)) :=
  match raw_logs with
  | [] => Decoded events
  | r :: raw_logs =>
      e ← parse_log r;
      parse_logs_from (match e with Some e => events ++ [e] | None => events end)
        raw_logs
  end.

Definition parse_logs (raw_logs : list RawLog) : decoded (list (LogEvent F)) :=
  parse_logs_from [] raw_logs.

(** The summary [run_decoder] prints: [summarize_swaps(parse_logs(raw_logs))]. *)
Definition decode_and_summarize (raw_logs : list RawLog)
  : decoded (gmap string (gmap string F)) :=
  events ← parse_logs raw_logs;
  Decoded (summarize_swaps events).

End RestOfSources.

Arguments DivergencePoint F : clear implicits.
Arguments RawLog F : clear implicits.

(** ** Vocabulary of the run-level properties *)

Section RunVocabulary.
Context {F : Type} `{Float F}.

(** The record at position [j] carries the aggregate of the group stored
    under its timestamp and the detectors' answers on the histories as
    they stood when it was appended: their first [j + 1] entries. *)
Definition record_replayed (m : gmap Z (list (VenuePoint F)))
    (rl rb : list F) (j : nat) (r : BenchmarkPoint F) : Prop :=
  let agg := compute_liquidity_weighted_benchmark (default [] (m !! bp_ts r)) in
  rb !! j = Some (fst agg) /\ rl !! j = Some (snd agg) /\
  benchmark_price r = fst agg /\
  detect_thin_liquidity (snd agg) (take (S j) rl) default_quantile_threshold
    = Ok (thin_liquidity_flag r) /\
  detect_flash_loan_pattern (take (S j) rb) default_spike_threshold_pct
    = Ok (flash_loan_flag r).

(** The first record measures staleness from its own timestamp; a record
    that follows one with a numeric benchmark measures it from that
    record's timestamp. *)
Definition staleness_replayed (bh : list (BenchmarkPoint F)) : Prop :=
  (forall r, bh !! 0%nat = Some r ->
     staleness_flag r =
       detect_staleness (bp_ts r) (bp_ts r) default_max_staleness_seconds) /\
  (forall j r' r, bh !! j = Some r' -> bh !! S j = Some r ->
     fisnan (benchmark_price r') = false ->
     staleness_flag r =
       detect_staleness (bp_ts r) (bp_ts r') default_max_staleness_seconds).

Definition last_update_tracks (st : DetectionState F) : Prop :=
  match last (benchmark_history st) with
  | None => last_update_ts st = None
  | Some r' =>
      fisnan (benchmark_price r') = false ->
      last_update_ts st = Some (bp_ts r')
  end.

(** The loop invariant of [run_demo]. *)
Definition run_invariant (m : gmap Z (list (VenuePoint F)))
    (st : DetectionState F) : Prop :=
  length (rolling_liq st) = length (benchmark_history st) /\
  length (rolling_benchmarks st) = length (benchmark_history st) /\
  (forall j r, benchmark_history st !! j = Some r ->
     record_replayed m (rolling_liq st) (rolling_benchmarks st) j r) /\
  staleness_replayed (benchmark_history st) /\
  last_update_tracks st.

End RunVocabulary.

(** ** Vocabulary of the decoder properties *)

Section DecoderVocabulary.
Context {F : Type} `{Float F}.

(** The records [parse_logs] keeps: those typed "SWAP" or "TRANSFER". *)
Definition is_kept (r : RawLog F) : bool :=
  match raw_event_type r with
  | Some ty => String.eqb ty "SWAP" || String.eqb ty "TRANSFER"
  | None => false
  end.

Definition is_swap (r : RawLog F) : bool :=
  match raw_event_type r with
  | Some ty => String.eqb ty "SWAP"
  | None => false
  end.

(** All seven keys are present. *)
Definition is_complete (r : RawLog F) : bool :=
  bool_decide (is_Some (raw_tx_hash r)) && bool_decide (is_Some (raw_event_type r))
  && bool_decide (is_Some (raw_pool r)) && bool_decide (is_Some (raw_token_in r))
  && bool_decide (is_Some (raw_token_out r))
  && bool_decide (is_Some (raw_amount_in r))
  && bool_decide (is_Some (raw_amount_out r)).

(** The keys [parse_logs] needs of a record: "event_type" always, the
    other six only when the record is kept. *)
Definition has_needed_keys (r : RawLog F) : bool :=
  bool_decide (is_Some (raw_event_type r)) && (negb (is_kept r) || is_complete r).

End DecoderVocabulary.

(** ** oracle_anomaly_demo.py: [generate_synthetic_series] *)

(** The generator draws from Python's global random number generator.
    Its state is a value of an arbitrary type [G]; [gauss mu sigma] and
    [uniform a b] take a state to the number drawn and the next state, and
    the draws are threaded in the order the source makes them.  Nothing is
    assumed of the numbers drawn. *)
Section Generator.
Context {F : Type} `{Float F} {G : Type}.
Variables gauss uniform : F -> F -> G -> F * G.

Definition default_base_price : F := of_Z 2000.
(** The literal [0.2]. *)
Definition default_drift_per_step : F := fdiv (of_Z 1) (of_Z 5).
Definition default_noise_std : F := of_Z 3.

Definition venues : list string := ["CEX_A"; "CEX_B"; "DEX_POOL"].

(** The body of [for v in venues], up to the [append]. *)
Definition venue_observation (t : datetime) (step_price : F)
    (i flash_start flash_end : Z) (v : string) (g : G) : VenuePoint F * G :=
  if String.eqb v "CEX_A" then
    let '(x, g) := gauss (of_Z 0) (fdiv (of_Z 3) (of_Z 2)) g in
    let p := fadd step_price x in
    let '(liq, g) := uniform (of_Z 800000) (of_Z 1200000) g in
    ({| ts := t; venue := v; price := p; liquidity := liq |}, g)
  else if String.eqb v "CEX_B" then
    let '(x, g) := gauss (of_Z 0) (of_Z 2) g in
    let p := fadd step_price x in
    let '(liq, g) := uniform (of_Z 400000) (of_Z 800000) g in
    ({| ts := t; venue := v; price := p; liquidity := liq |}, g)
  else
    let '(x, g) := gauss (of_Z 0) (of_Z 3) g in
    let p := fadd step_price x in
    let '(liq, g) := uniform (of_Z 150000) (of_Z 350000) g in
    if (flash_start <=? i) && (i <=? flash_end) then
      let p := fmul p (fdiv (of_Z 112) (of_Z 100)) in
      let '(liq, g) := uniform (of_Z 30000) (of_Z 60000) g in
      ({| ts := t; venue := v; price := p; liquidity := liq |}, g)
    else
      ({| ts := t; venue := v; price := p; liquidity := liq |}, g).

(** The loop over the venues at one step. *)
Definition observe_venues (t : datetime) (step_price : F)
    (i flash_start flash_end : Z) (results : list (VenuePoint F)) (g : G)
  : list (VenuePoint F) * G :=
  foldl (λ '(results, g) v,
           let '(p, g) := venue_observation t step_price i flash_start flash_end v g in
           (results ++ [p], g))
        (results, g) venues.

(** One iteration of [for i in range(n_points)]; ten seconds are
    [10 * 10**6] microseconds. *)
Definition generate_step (start : datetime) (drift_per_step noise_std : F)
    (flash_start flash_end : Z) (st : F * list (VenuePoint F) * G) (i : Z)
  : F * list (VenuePoint F) * G :=
  let '(step_price, results, g) := st in
  let '(x, g) := gauss (of_Z 0) noise_std g in
  let step_price := fadd step_price (fadd drift_per_step x) in
  let t := start + i * 10 * 1000000 in
  let '(results, g) :=
    observe_venues t step_price i flash_start flash_end results g in
  (step_price, results, g).

(** [int(n_points * 0.55)] truncates; the product is not negative when the
    loop runs at all, and there truncation is the floor. *)
Definition generate_synthetic_series (start : datetime) (n_points : Z)
    (base_price drift_per_step noise_std : F) (g : G)
  : list (VenuePoint F) * G :=
  let flash_start := ffloor (fmul (of_Z n_points) (fdiv (of_Z 55) (of_Z 100))) in
  let flash_end := flash_start + 3 in
  let '(_, results, g) :=
    foldl (generate_step start drift_per_step noise_std flash_start flash_end)
          (base_price, [], g) (seqZ 0 n_points) in
  (results, g).

(** The timestamps and venues a series of [n_points] steps must carry. *)
Definition step_timestamps (start : datetime) (n_points : Z) : list datetime :=
  (λ i, start + i * 10 * 1000000) <$> seqZ 0 n_points.

Definition expected_keys (start : datetime) (n_points : Z)
  : list (datetime * string) :=
  t ← step_timestamps start n_points; (λ v, (t, v)) <$> venues.

End Generator.

(** * Facts that hold for every instance of the float interface *)

Section GenericFacts.
Context {F : Type} `{Float F}.

(** *** The flash-loan detector *)

Lemma last3_app (pre : list F) (b0 b1 b2 : F) :
  last3 (pre ++ [b0; b1; b2]) = [b0; b1; b2].
Proof.
  unfold last3. rewrite length_app. cbn [length].
  replace (length pre + 3 - 3)%nat with (length pre) by lia.
  apply drop_app_length.
Qed.

Lemma flash_short (l : list F) (thr : F) :
  (length l < 3)%nat -> detect_flash_loan_pattern l thr = Ok false.
Proof.
  intros Hlen. unfold detect_flash_loan_pattern.
  destruct (Nat.ltb_spec (length l) 3) as [_|Hge]; [reflexivity | lia].
Qed.

Lemma flash_length_app (pre : list F) (b0 b1 b2 : F) :
  (length (pre ++ [b0; b1; b2]) <? 3)%nat = false.
Proof. apply Nat.ltb_ge. rewrite length_app. cbn. lia. Qed.

Lemma flash_nan (pre : list F) (b0 b1 b2 thr : F) :
  fisnan b0 || fisnan b1 || fisnan b2 = true ->
  detect_flash_loan_pattern (pre ++ [b0; b1; b2]) thr = Ok false.
Proof.
  intros Hnan. unfold detect_flash_loan_pattern.
  rewrite flash_length_app, last3_app, Hnan. reflexivity.
Qed.

Lemma flash_zero_baseline (pre : list F) (b0 b1 b2 thr : F) :
  fisnan b0 || fisnan b1 || fisnan b2 = false ->
  feqb b0 (of_Z 0) = true ->
  detect_flash_loan_pattern (pre ++ [b0; b1; b2]) thr = Raise ZeroDivisionError.
Proof.
  intros Hnan Hz. unfold detect_flash_loan_pattern, py_div.
  rewrite flash_length_app, last3_app, Hnan, Hz. reflexivity.
Qed.

Lemma flash_decision (pre : list F) (b0 b1 b2 thr : F) :
  fisnan b0 || fisnan b1 || fisnan b2 = false ->
  feqb b0 (of_Z 0) = false ->
  detect_flash_loan_pattern (pre ++ [b0; b1; b2]) thr =
    Ok (if fltb (fmul (fdiv (fsub b2 b0) b0) (of_Z 100)) thr then false
        else fltb (fabs (fsub b1 b0)) (fabs (fsub b2 b0))).
Proof.
  intros Hnan Hz. unfold detect_flash_loan_pattern, py_div.
  rewrite flash_length_app, last3_app, Hnan, Hz. cbn.
  destruct (fltb _ thr); reflexivity.
Qed.

(** A list of at least three values ends in its last three. *)
Lemma split_last3 (l : list F) :
  (3 <= length l)%nat ->
  exists pre b0 b1 b2, l = pre ++ [b0; b1; b2].
Proof.
  intros Hlen.
  exists (take (length l - 3) l).
  assert (Hd : length (drop (length l - 3) l) = 3%nat).
  { rewrite length_drop. lia. }
  destruct (drop (length l - 3) l) as [|b0 [|b1 [|b2 [|? ?]]]] eqn:E;
    cbn in Hd; try discriminate.
  exists b0, b1, b2. rewrite <- E. symmetry. apply take_drop.
Qed.

(** The detector raises only on a zero baseline. *)
Lemma flash_raises_only_zero_division (l : list F) (thr : F) (e : exn) :
  detect_flash_loan_pattern l thr = Raise e -> e = ZeroDivisionError.
Proof.
  destruct (le_lt_dec 3 (length l)) as [Hge|Hlt].
  - destruct (split_last3 l Hge) as (pre & b0 & b1 & b2 & ->).
    destruct (fisnan b0 || fisnan b1 || fisnan b2) eqn:Hnan.
    + rewrite flash_nan by assumption. discriminate.
    + destruct (feqb b0 (of_Z 0)) eqn:Hz.
      * rewrite flash_zero_baseline by assumption. congruence.
      * rewrite flash_decision by assumption. discriminate.
  - rewrite flash_short by assumption. discriminate.
Qed.

(** *** The staleness detector *)

Lemma staleness_unfold (current_ts last_update_ts : datetime) (thr : Z) :
  detect_staleness current_ts last_update_ts thr =
    fltb (of_Z thr) (total_seconds (current_ts - last_update_ts)).
Proof. reflexivity. Qed.

(** *** The thin-liquidity detector *)

Lemma thin_cold_start (cur : F) (hist : list F) (q : F) :
  (length hist < 10)%nat -> detect_thin_liquidity cur hist q = Ok false.
Proof.
  intros Hlen. unfold detect_thin_liquidity.
  destruct (Nat.ltb_spec (length hist) 10); [reflexivity | lia].
Qed.

Lemma np_quantile_returns (a : list F) (q : F) :
  quantile_is_valid q = true -> exists v, np_quantile a q = Ok v.
Proof.
  intros Hq. unfold np_quantile. rewrite Hq. cbn [negb].
  destruct (existsb fisnan a); eauto.
Qed.

Lemma thin_warm (cur : F) (hist : list F) (q : F) :
  (10 <= length hist)%nat ->
  detect_thin_liquidity cur hist q =
    (v ← np_quantile hist q; Ok (fltb cur v)).
Proof.
  intros Hlen. unfold detect_thin_liquidity.
  destruct (Nat.ltb_spec (length hist) 10); [lia | reflexivity].
Qed.

Lemma thin_returns (cur : F) (hist : list F) (q : F) :
  quantile_is_valid q = true -> exists b, detect_thin_liquidity cur hist q = Ok b.
Proof.
  intros Hq. unfold detect_thin_liquidity.
  destruct (length hist <? 10)%nat; [eauto|].
  destruct (np_quantile_returns hist q Hq) as [v ->]. cbn. eauto.
Qed.

End GenericFacts.

Section OrchestratorFacts.
Context {F : Type} `{Float F}.

(** *** Grouping and ordering of the input *)

Lemma group_by_ts_lookup_acc (series : list (VenuePoint F))
    (acc : gmap Z (list (VenuePoint F))) (t : Z) :
  default [] (foldl (λ m p, <[ts p := default [] (m !! ts p) ++ [p]]> m) acc series !! t)
  = default [] (acc !! t) ++ filter (λ p, ts p = t) series.
Proof.
  revert acc. induction series as [|p series IH]; intros acc.
  - cbn. rewrite app_nil_r. reflexivity.
  - cbn [foldl]. rewrite IH. rewrite filter_cons.
    destruct (decide (ts p = t)) as [->|Hne].
    + rewrite lookup_insert_eq. cbn. rewrite <- app_assoc. reflexivity.
    + rewrite lookup_insert_ne by assumption. reflexivity.
Qed.

Lemma group_by_ts_dom_acc (series : list (VenuePoint F))
    (acc : gmap Z (list (VenuePoint F))) (t : Z) :
  t ∈ dom (foldl (λ m p, <[ts p := default [] (m !! ts p) ++ [p]]> m) acc series)
  <-> t ∈ dom acc \/ t ∈ ts <$> series.
Proof.
  revert acc. induction series as [|p series IH]; intros acc.
  - cbn. rewrite elem_of_nil. tauto.
  - cbn [foldl]. rewrite IH, dom_insert, elem_of_union, elem_of_singleton.
    rewrite fmap_cons, elem_of_cons. tauto.
Qed.

(** The group stored under a timestamp is the sub-list of the series with
    that timestamp, in series order. *)
Lemma group_by_ts_lookup (series : list (VenuePoint F)) (t : Z) :
  default [] (group_by_ts series !! t) = filter (λ p, ts p = t) series.
Proof.
  unfold group_by_ts. rewrite group_by_ts_lookup_acc, lookup_empty. reflexivity.
Qed.

Lemma group_by_ts_dom (series : list (VenuePoint F)) (t : Z) :
  t ∈ dom (group_by_ts series) <-> t ∈ ts <$> series.
Proof.
  unfold group_by_ts. rewrite group_by_ts_dom_acc, dom_empty, elem_of_empty. tauto.
Qed.

Lemma group_by_ts_lookup_Some (series : list (VenuePoint F)) (t : Z) :
  group_by_ts series !! t =
    if decide (t ∈ ts <$> series)
    then Some (filter (λ p, ts p = t) series) else None.
Proof.
  destruct (decide (t ∈ ts <$> series)) as [Hin|Hnin].
  - apply group_by_ts_dom, elem_of_dom in Hin as [g Hg].
    pose proof (group_by_ts_lookup series t) as Hl.
    rewrite Hg in Hl. cbn in Hl. congruence.
  - apply not_elem_of_dom. rewrite group_by_ts_dom. assumption.
Qed.

Lemma sorted_keys_elem_of (series : list (VenuePoint F)) (t : Z) :
  t ∈ sorted_keys (group_by_ts series) <-> t ∈ ts <$> series.
Proof.
  unfold sorted_keys. rewrite merge_sort_Permutation, elem_of_elements.
  apply group_by_ts_dom.
Qed.

Lemma sorted_keys_NoDup (m : gmap Z (list (VenuePoint F))) : NoDup (sorted_keys m).
Proof.
  unfold sorted_keys. rewrite merge_sort_Permutation. apply NoDup_elements.
Qed.

Lemma sorted_keys_sorted (m : gmap Z (list (VenuePoint F))) :
  StronglySorted Z.le (sorted_keys m).
Proof. unfold sorted_keys. apply StronglySorted_merge_sort; apply _. Qed.

Lemma StronglySorted_le_NoDup_lt (l : list Z) :
  StronglySorted Z.le l -> NoDup l -> StronglySorted Z.lt l.
Proof.
  induction 1 as [|x l Hs IH Hx]; intros Hnd; [constructor|].
  apply NoDup_cons in Hnd as [Hnin Hnd].
  constructor; [auto|].
  rewrite Forall_forall in *. intros y Hy.
  assert (x ≠ y) by (intros ->; contradiction).
  specialize (Hx y Hy). lia.
Qed.

(** The timestamps the loop visits increase strictly. *)
Lemma sorted_keys_increasing (m : gmap Z (list (VenuePoint F))) :
  StronglySorted Z.lt (sorted_keys m).
Proof.
  apply StronglySorted_le_NoDup_lt; [apply sorted_keys_sorted | apply sorted_keys_NoDup].
Qed.

Lemma filter_none {A} (P : A -> Prop) `{forall x, Decision (P x)} (l : list A) :
  (forall x, x ∈ l -> ~ P x) -> filter P l = [].
Proof.
  induction l as [|x l IH]; intros Hl; [reflexivity|].
  rewrite filter_cons_False by (apply Hl; left).
  apply IH. intros y Hy. apply Hl. right. exact Hy.
Qed.

(** The grouping does not depend on how observations of different
    timestamps are interleaved. *)
Lemma group_by_ts_app_comm (a b : list (VenuePoint F)) :
  (forall p q, p ∈ a -> q ∈ b -> ts p ≠ ts q) ->
  group_by_ts (a ++ b) = group_by_ts (b ++ a).
Proof.
  intros Hdisj. apply map_eq. intros t.
  rewrite !group_by_ts_lookup_Some.
  assert (Hmem : t ∈ ts <$> (a ++ b) <-> t ∈ ts <$> (b ++ a)).
  { rewrite !fmap_app, !elem_of_app. tauto. }
  destruct (decide (t ∈ ts <$> (a ++ b))) as [Hin|Hnin];
    destruct (decide (t ∈ ts <$> (b ++ a))) as [Hin'|Hnin']; try tauto.
  f_equal. rewrite !filter_app.
  destruct (decide (t ∈ ts <$> a)) as [Ha|Ha].
  - assert (Hb : filter (λ p, ts p = t) b = []).
    { apply filter_none. intros q Hq Hts.
      apply list_elem_of_fmap in Ha as (p & -> & Hp).
      apply (Hdisj p q Hp Hq). congruence. }
    rewrite Hb, app_nil_r. reflexivity.
  - assert (Hb : filter (λ p, ts p = t) a = []).
    { apply filter_none. intros q Hq Hts.
      apply Ha. apply list_elem_of_fmap. exists q. auto. }
    rewrite Hb, app_nil_r. reflexivity.
Qed.

End OrchestratorFacts.

Section StepFacts.
Context {F : Type} `{Float F}.

(** A completed step, spelled out. *)
Lemma step_ok_inv (st st' : DetectionState F) (t : datetime)
    (pts : list (VenuePoint F)) :
  step st t pts = Ok st' ->
  let b := fst (compute_liquidity_weighted_benchmark pts) in
  let liq := snd (compute_liquidity_weighted_benchmark pts) in
  exists thin flash,
    detect_thin_liquidity liq (rolling_liq st ++ [liq])
      default_quantile_threshold = Ok thin /\
    detect_flash_loan_pattern (rolling_benchmarks st ++ [b])
      default_spike_threshold_pct = Ok flash /\
    st' = {| benchmark_history :=
               benchmark_history st ++
                 [ {| bp_ts := t; benchmark_price := b;
                      staleness_flag :=
                        detect_staleness t (consulted_ts st t)
                          default_max_staleness_seconds;
                      thin_liquidity_flag := thin;
                      flash_loan_flag := flash |} ];
             rolling_liq := rolling_liq st ++ [liq];
             rolling_benchmarks := rolling_benchmarks st ++ [b];
             last_update_ts :=
               Some (if negb (fisnan b) then t else consulted_ts st t) |}.
Proof.
  unfold step, consulted_ts.
  destruct (compute_liquidity_weighted_benchmark pts) as [b liq]. cbn [fst snd].
  destruct (detect_thin_liquidity liq (rolling_liq st ++ [liq])
              default_quantile_threshold) as [thin|e]; cbn; [|discriminate].
  destruct (detect_flash_loan_pattern (rolling_benchmarks st ++ [b])
              default_spike_threshold_pct) as [flash|e]; cbn; [|discriminate].
  intros [= <-]. exists thin, flash. auto.
Qed.

(** A step completes exactly when both fallible detectors return. *)
Lemma step_returns (st : DetectionState F) (t : datetime)
    (pts : list (VenuePoint F)) (thin flash : bool) :
  let b := fst (compute_liquidity_weighted_benchmark pts) in
  let liq := snd (compute_liquidity_weighted_benchmark pts) in
  detect_thin_liquidity liq (rolling_liq st ++ [liq])
    default_quantile_threshold = Ok thin ->
  detect_flash_loan_pattern (rolling_benchmarks st ++ [b])
    default_spike_threshold_pct = Ok flash ->
  exists st', step st t pts = Ok st'.
Proof.
  unfold step.
  destruct (compute_liquidity_weighted_benchmark pts) as [b liq]. cbn [fst snd].
  intros -> ->. cbn. eauto.
Qed.

(** With a NaN as newest value the flash detector returns false. *)
Lemma flash_sentinel_current (rb : list F) (b thr : F) :
  fisnan b = true -> detect_flash_loan_pattern (rb ++ [b]) thr = Ok false.
Proof.
  intros Hb.
  destruct (le_lt_dec 3 (length (rb ++ [b]))) as [Hge|Hlt].
  - destruct (split_last3 _ Hge) as (pre & b0 & b1 & b2 & E).
    rewrite E.
    assert (b2 = b) as ->.
    { change [b0; b1; b2] with ([b0; b1] ++ [b2]) in E.
      rewrite app_assoc in E. apply app_inj_tail in E as [_ ?]. congruence. }
    apply flash_nan. rewrite Hb. apply orb_true_r.
  - apply flash_short. exact Hlt.
Qed.

(** Steps whose benchmark is the sentinel always complete. *)
Lemma step_sentinel_returns (st : DetectionState F) (t : datetime)
    (pts : list (VenuePoint F)) :
  quantile_is_valid default_quantile_threshold = true ->
  fisnan (fst (compute_liquidity_weighted_benchmark pts)) = true ->
  exists st', step st t pts = Ok st'.
Proof.
  intros Hq Hb.
  destruct (thin_returns (snd (compute_liquidity_weighted_benchmark pts))
              (rolling_liq st ++ [snd (compute_liquidity_weighted_benchmark pts)])
              _ Hq) as [thin Hthin].
  eapply step_returns; [exact Hthin|].
  apply flash_sentinel_current. exact Hb.
Qed.

(** The only exception a step can raise, with a valid default quantile,
    is the flash detector's division by a zero baseline. *)
Lemma step_raises_only_zero_division (st : DetectionState F) (t : datetime)
    (pts : list (VenuePoint F)) (e : exn) :
  quantile_is_valid default_quantile_threshold = true ->
  step st t pts = Raise e -> e = ZeroDivisionError.
Proof.
  intros Hq. unfold step.
  destruct (compute_liquidity_weighted_benchmark pts) as [b liq].
  destruct (thin_returns liq (rolling_liq st ++ [liq]) _ Hq) as [thin ->]. cbn.
  destruct (detect_flash_loan_pattern (rolling_benchmarks st ++ [b])
              default_spike_threshold_pct) as [flash|e'] eqn:E; cbn; [discriminate|].
  intros [= <-]. eapply flash_raises_only_zero_division. exact E.
Qed.

Lemma step_raise_is_flash (st : DetectionState F) (t : datetime)
    (pts : list (VenuePoint F)) (e : exn) :
  quantile_is_valid default_quantile_threshold = true ->
  step st t pts = Raise e ->
  detect_flash_loan_pattern
    (rolling_benchmarks st ++ [fst (compute_liquidity_weighted_benchmark pts)])
    default_spike_threshold_pct = Raise ZeroDivisionError.
Proof.
  intros Hq. unfold step.
  destruct (compute_liquidity_weighted_benchmark pts) as [b liq]. cbn [fst].
  destruct (thin_returns liq (rolling_liq st ++ [liq]) _ Hq) as [thin ->]. cbn.
  destruct (detect_flash_loan_pattern (rolling_benchmarks st ++ [b])
              default_spike_threshold_pct) as [flash|e'] eqn:E; cbn; [discriminate|].
  intros _. f_equal. eapply flash_raises_only_zero_division. exact E.
Qed.

Lemma step_lengths (st st' : DetectionState F) (t : datetime)
    (pts : list (VenuePoint F)) :
  step st t pts = Ok st' ->
  length (rolling_liq st') = S (length (rolling_liq st)) /\
  length (rolling_benchmarks st') = S (length (rolling_benchmarks st)) /\
  length (benchmark_history st') = S (length (benchmark_history st)).
Proof.
  intros Hstep. destruct (step_ok_inv _ _ _ _ Hstep) as (thin & flash & _ & _ & ->).
  cbn. rewrite !length_app. cbn. lia.
Qed.

Lemma run_loop_raises_only_zero_division
    (m : gmap Z (list (VenuePoint F))) (tss : list datetime)
    (st : DetectionState F) (e : exn) :
  quantile_is_valid default_quantile_threshold = true ->
  run_loop m tss st = Raise e -> e = ZeroDivisionError.
Proof.
  intros Hq. revert st. induction tss as [|t tss IH]; intros st; cbn.
  - discriminate.
  - destruct (step st t (default [] (m !! t))) as [st1|e1] eqn:E; cbn.
    + apply IH.
    + intros [= <-]. eapply step_raises_only_zero_division; eauto.
Qed.

(** A completed pass has appended one entry per visited timestamp to each
    history, and one record carrying that timestamp. *)
Lemma run_loop_histories (m : gmap Z (list (VenuePoint F)))
    (tss : list datetime) (st st' : DetectionState F) :
  run_loop m tss st = Ok st' ->
  bp_ts <$> benchmark_history st' = (bp_ts <$> benchmark_history st) ++ tss /\
  length (rolling_liq st') = (length (rolling_liq st) + length tss)%nat /\
  length (rolling_benchmarks st') =
    (length (rolling_benchmarks st) + length tss)%nat.
Proof.
  revert st. induction tss as [|t tss IH]; intros st; cbn.
  - intros [= <-]. rewrite app_nil_r. repeat split; lia.
  - destruct (step st t (default [] (m !! t))) as [st1|e1] eqn:E; cbn; [|discriminate].
    intros Hrun. destruct (IH _ Hrun) as (Hh & Hl & Hb).
    destruct (step_ok_inv _ _ _ _ E) as (thin & flash & _ & _ & ->).
    cbn in Hh, Hl, Hb. rewrite fmap_app in Hh. cbn in Hh.
    rewrite <- app_assoc in Hh. cbn in Hh.
    rewrite !length_app in Hl, Hb. cbn in Hl, Hb.
    repeat split; [exact Hh | lia | lia].
Qed.

Lemma step_last_update_justified (st st' : DetectionState F) (t : datetime)
    (pts : list (VenuePoint F)) :
  step st t pts = Ok st' ->
  last_update_justified st -> last_update_justified st'.
Proof.
  intros Hstep Hinv.
  destruct (step_ok_inv _ _ _ _ Hstep) as (thin & flash & _ & _ & ->).
  unfold last_update_justified, consulted_ts in *. cbn.
  destruct (fisnan (fst (compute_liquidity_weighted_benchmark pts))) eqn:Hnan; cbn.
  - destruct (last_update_ts st) as [l|].
    + destruct Hinv as [Hhd | (r & Hr & Hts & Hv)].
      * left. destruct (benchmark_history st); [discriminate | exact Hhd].
      * right. exists r. rewrite elem_of_app. auto.
    + left. rewrite Hinv. reflexivity.
  - right. eexists. split; [apply elem_of_app; right; apply list_elem_of_singleton; reflexivity|].
    cbn. auto.
Qed.

Lemma run_loop_last_update_justified (m : gmap Z (list (VenuePoint F)))
    (tss : list datetime) (st st' : DetectionState F) :
  run_loop m tss st = Ok st' ->
  last_update_justified st -> last_update_justified st'.
Proof.
  revert st. induction tss as [|t tss IH]; intros st; cbn.
  - intros [= <-]. auto.
  - destruct (step st t (default [] (m !! t))) as [st1|e1] eqn:E; cbn; [|discriminate].
    intros Hrun Hinv. apply (IH _ Hrun).
    eapply step_last_update_justified; eauto.
Qed.

End StepFacts.
Section AggregatorFacts.
Context {F : Type} `{Float F}.

(** On the guarded branch the aggregator returns the sentinel pair and
    divides by nothing. *)
Lemma aggregator_guard (points : list (VenuePoint F)) :
  fleb (np_sum (liquidity <$> points)) (of_Z 0) = true ->
  compute_liquidity_weighted_benchmark points = (fnan, of_Z 0) /\
  compute_liquidity_weighted_benchmark_divisors points = [].
Proof.
  intros Hle.
  unfold compute_liquidity_weighted_benchmark,
    compute_liquidity_weighted_benchmark_divisors.
  rewrite Hle. auto.
Qed.

(** Whatever the input, no denominator the aggregator uses is [<= 0]. *)
Lemma aggregator_divisors_not_le_zero (points : list (VenuePoint F)) (d : F) :
  d ∈ compute_liquidity_weighted_benchmark_divisors points ->
  fleb d (of_Z 0) = false.
Proof.
  unfold compute_liquidity_weighted_benchmark_divisors.
  destruct (fleb (np_sum (liquidity <$> points)) (of_Z 0)) eqn:Hle.
  - intros Hin. apply elem_of_nil in Hin. contradiction.
  - intros Hin. apply list_elem_of_fmap in Hin as (l & -> & _). exact Hle.
Qed.

(** The divisors are those of the weights: one division per venue. *)
Lemma aggregator_divisors_weights (points : list (VenuePoint F)) :
  fleb (np_sum (liquidity <$> points)) (of_Z 0) = false ->
  weights_of points =
    zip_with fdiv (liquidity <$> points)
      (compute_liquidity_weighted_benchmark_divisors points).
Proof.
  intros Hle.
  unfold weights_of, compute_liquidity_weighted_benchmark_divisors.
  rewrite Hle. cbn zeta.
  generalize (np_sum (liquidity <$> points)) as total.
  intros total. clear Hle.
  induction (liquidity <$> points) as [|l ls IH]; [reflexivity|].
  cbn. f_equal. exact IH.
Qed.

End AggregatorFacts.

(** *** Strings: the two key suffixes never collide *)

Lemma list_ascii_of_string_app (s1 s2 : string) :
  String.list_ascii_of_string (s1 +:+ s2) =
    String.list_ascii_of_string s1 ++ String.list_ascii_of_string s2.
Proof.
  induction s1 as [|c s1 IH]; [reflexivity|].
  change (String c s1 +:+ s2) with (String c (s1 +:+ s2)).
  cbn [String.list_ascii_of_string]. rewrite IH. reflexivity.
Qed.

Lemma string_app_inj_r (s1 s2 x : string) : s1 +:+ x = s2 +:+ x -> s1 = s2.
Proof.
  intros E. apply (f_equal String.list_ascii_of_string) in E.
  rewrite !list_ascii_of_string_app in E.
  apply app_inv_tail in E.
  rewrite <- (String.string_of_list_ascii_of_string s1),
          <- (String.string_of_list_ascii_of_string s2).
  congruence.
Qed.

Lemma sold_key_inj (t u : string) : t +:+ "_sold" = u +:+ "_sold" -> t = u.
Proof. apply string_app_inj_r. Qed.

Lemma bought_key_inj (t u : string) : t +:+ "_bought" = u +:+ "_bought" -> t = u.
Proof. apply string_app_inj_r. Qed.

Lemma sold_key_not_bought (t u : string) : t +:+ "_sold" ≠ u +:+ "_bought".
Proof.
  intros E. apply (f_equal String.list_ascii_of_string) in E.
  rewrite !list_ascii_of_string_app in E.
  apply (f_equal (@rev _)) in E. rewrite !rev_app_distr in E.
  cbn in E. discriminate E.
Qed.

Section SummaryFacts.
Context {F : Type} `{Float F}.

Lemma summarize_event_not_swap (s : gmap string (gmap string F)) (e : LogEvent F) :
  event_type e ≠ "SWAP" -> summarize_event s e = s.
Proof.
  intros Hne. unfold summarize_event.
  destruct (String.eqb_spec (event_type e) "SWAP"); [contradiction | reflexivity].
Qed.

Lemma summarize_event_swap (s : gmap string (gmap string F)) (e : LogEvent F) :
  event_type e = "SWAP" ->
  summarize_event s e =
    add_flow (add_flow s (pool e) (token_in e +:+ "_sold") (amount_in e))
             (pool e) (token_out e +:+ "_bought") (amount_out e).
Proof.
  intros He. unfold summarize_event.
  destruct (String.eqb_spec (event_type e) "SWAP"); [reflexivity | contradiction].
Qed.

(** Folding from any summary, the non-SWAP events can be dropped. *)
Lemma summarize_from_filter (events : list (LogEvent F))
    (s : gmap string (gmap string F)) :
  foldl summarize_event s events =
    foldl summarize_event s (filter (λ e, event_type e = "SWAP") events).
Proof.
  revert s. induction events as [|e events IH]; intros s; [reflexivity|].
  rewrite filter_cons. cbn [foldl].
  destruct (decide (event_type e = "SWAP")) as [He|He].
  - cbn [foldl]. apply IH.
  - rewrite summarize_event_not_swap by assumption. apply IH.
Qed.

Lemma summarize_swaps_filter (events : list (LogEvent F)) :
  summarize_swaps events =
    summarize_swaps (filter (λ e, event_type e = "SWAP") events).
Proof. apply summarize_from_filter. Qed.

(** [summary[p][k]], if present. *)
Lemma entry_add_flow (s : gmap string (gmap string F)) (p p' k k' : string) (v : F) :
  entry (add_flow s p' k' v) p k =
    if decide (p = p' /\ k = k')
    then Some (fadd (default (of_Z 0) (entry s p k)) v)
    else entry s p k.
Proof.
  unfold entry, add_flow, add_to.
  destruct (decide (p = p' /\ k = k')) as [[-> ->]|Hne].
  - rewrite lookup_insert_eq. cbn. rewrite lookup_insert_eq. reflexivity.
  - destruct (decide (p = p')) as [->|Hp].
    + rewrite lookup_insert_eq. cbn.
      rewrite lookup_insert_ne by (intros ->; apply Hne; auto). reflexivity.
    + rewrite lookup_insert_ne by congruence. reflexivity.
Qed.

Lemma entry_add_flow_sold_bought (s : gmap string (gmap string F))
    (p p' t u : string) (v : F) :
  entry (add_flow s p' (u +:+ "_sold") v) p (t +:+ "_bought") =
    entry s p (t +:+ "_bought").
Proof.
  rewrite entry_add_flow. apply decide_False.
  intros [_ E]. symmetry in E. exact (sold_key_not_bought _ _ E).
Qed.

Lemma entry_add_flow_bought_sold (s : gmap string (gmap string F))
    (p p' t u : string) (v : F) :
  entry (add_flow s p' (u +:+ "_bought") v) p (t +:+ "_sold") =
    entry s p (t +:+ "_sold").
Proof.
  rewrite entry_add_flow. apply decide_False.
  intros [_ E]. exact (sold_key_not_bought _ _ E).
Qed.

Lemma entry_summarize_sold (s : gmap string (gmap string F)) (e : LogEvent F)
    (p t : string) :
  entry (summarize_event s e) p (t +:+ "_sold") =
    if decide (event_type e = "SWAP" /\ pool e = p /\ token_in e = t)
    then Some (fadd (default (of_Z 0) (entry s p (t +:+ "_sold"))) (amount_in e))
    else entry s p (t +:+ "_sold").
Proof.
  destruct (decide (event_type e = "SWAP")) as [He|He].
  - rewrite summarize_event_swap by assumption.
    rewrite entry_add_flow_bought_sold, entry_add_flow.
    destruct (decide (p = pool e /\ t +:+ "_sold" = token_in e +:+ "_sold"))
      as [[-> E]|Hne].
    + apply sold_key_inj in E as ->. rewrite decide_True by auto. reflexivity.
    + rewrite decide_False; [reflexivity|].
      intros (_ & <- & <-). apply Hne. auto.
  - rewrite summarize_event_not_swap by assumption.
    rewrite decide_False by tauto. reflexivity.
Qed.

Lemma entry_summarize_bought (s : gmap string (gmap string F)) (e : LogEvent F)
    (p t : string) :
  entry (summarize_event s e) p (t +:+ "_bought") =
    if decide (event_type e = "SWAP" /\ pool e = p /\ token_out e = t)
    then Some (fadd (default (of_Z 0) (entry s p (t +:+ "_bought"))) (amount_out e))
    else entry s p (t +:+ "_bought").
Proof.
  destruct (decide (event_type e = "SWAP")) as [He|He].
  - rewrite summarize_event_swap by assumption.
    rewrite entry_add_flow, entry_add_flow_sold_bought.
    destruct (decide (p = pool e /\ t +:+ "_bought" = token_out e +:+ "_bought"))
      as [[-> E]|Hne].
    + apply bought_key_inj in E as ->. rewrite decide_True by auto. reflexivity.
    + rewrite decide_False; [reflexivity|].
      intros (_ & <- & <-). apply Hne. auto.
  - rewrite summarize_event_not_swap by assumption.
    rewrite decide_False by tauto. reflexivity.
Qed.

Lemma entry_fold_sold (events : list (LogEvent F))
    (s : gmap string (gmap string F)) (p t : string) :
  entry (foldl summarize_event s events) p (t +:+ "_sold") =
    match sold_flows events p t with
    | [] => entry s p (t +:+ "_sold")
    | flows => Some (foldl fadd (default (of_Z 0) (entry s p (t +:+ "_sold"))) flows)
    end.
Proof.
  revert s. induction events as [|e events IH]; intros s; [reflexivity|].
  cbn [foldl]. rewrite IH, entry_summarize_sold.
  unfold sold_flows. rewrite filter_cons.
  destruct (decide (event_type e = "SWAP" /\ pool e = p /\ token_in e = t)) as [He|He].
  - rewrite fmap_cons. cbn [default foldl].
    destruct (amount_in <$> filter _ events); reflexivity.
  - reflexivity.
Qed.

Lemma entry_fold_bought (events : list (LogEvent F))
    (s : gmap string (gmap string F)) (p t : string) :
  entry (foldl summarize_event s events) p (t +:+ "_bought") =
    match bought_flows events p t with
    | [] => entry s p (t +:+ "_bought")
    | flows => Some (foldl fadd (default (of_Z 0) (entry s p (t +:+ "_bought"))) flows)
    end.
Proof.
  revert s. induction events as [|e events IH]; intros s; [reflexivity|].
  cbn [foldl]. rewrite IH, entry_summarize_bought.
  unfold bought_flows. rewrite filter_cons.
  destruct (decide (event_type e = "SWAP" /\ pool e = p /\ token_out e = t)) as [He|He].
  - rewrite fmap_cons. cbn [default foldl].
    destruct (amount_out <$> filter _ events); reflexivity.
  - reflexivity.
Qed.

End SummaryFacts.
(** * Facts of exact arithmetic *)

Module ExactFacts.
Import Exact.
Local Open Scope Q_scope.

Lemma Qlt_bool_iff (p q : Q) : Qlt_bool p q = true <-> (p < q)%Q.
Proof.
  unfold Qlt_bool. rewrite negb_true_iff.
  split.
  - intros Hf. apply Qnot_le_lt. intros Hle.
    apply Qle_bool_iff in Hle. congruence.
  - intros Hlt. destruct (Qle_bool q p) eqn:E; [|reflexivity].
    apply Qle_bool_iff in E. exfalso. apply (Qlt_not_le _ _ Hlt E).
Qed.

Lemma Qeq_bool_false_of_pos (q : Q) : (0 < q)%Q -> Qeq_bool q 0 = false.
Proof.
  intros Hq. destruct (Qeq_bool q 0) eqn:E; [|reflexivity].
  apply Qeq_bool_iff in E. rewrite E in Hq. exfalso. apply (Qlt_irrefl _ Hq).
Qed.

Lemma Qle_bool_false_iff (p q : Q) : Qle_bool p q = false <-> q < p.
Proof.
  rewrite <- Qlt_bool_iff. unfold Qlt_bool.
  destruct (Qle_bool p q); cbn; split; congruence.
Qed.

(** *** Sums *)

Lemma foldl_Qplus_Qsum (l : list Q) (acc : Q) :
  foldl Qplus acc l == acc + Qsum l.
Proof.
  revert acc. induction l as [|x l IH]; intros acc; unfold Qsum; cbn [foldl foldr].
  - ring.
  - rewrite IH. unfold Qsum. ring.
Qed.

Lemma np_sum_from (l : list Q) (acc : Q) :
  foldl fadd (XNum acc) (XNum <$> l) = XNum (foldl Qplus acc l).
Proof.
  revert acc. induction l as [|x l IH]; intros acc; [reflexivity|].
  cbn [fmap list_fmap foldl]. apply IH.
Qed.

Lemma np_sum_exact (l : list Q) :
  np_sum (XNum <$> l) = XNum (foldl Qplus (inject_Z 0) l).
Proof. apply np_sum_from. Qed.

Lemma foldl_from_zero (l : list Q) : foldl Qplus (inject_Z 0) l == Qsum l.
Proof. rewrite foldl_Qplus_Qsum. change (inject_Z 0) with 0. ring. Qed.

Lemma Qsum_nonneg (l : list Q) : Forall (λ x, 0 <= x) l -> 0 <= Qsum l.
Proof.
  induction 1 as [|x l Hx _ IH]; unfold Qsum; cbn [foldr]; [apply Qle_refl|].
  fold (Qsum l). lra.
Qed.

Lemma Qsum_pos (l : list Q) : l ≠ [] -> Forall (λ x, 0 < x) l -> 0 < Qsum l.
Proof.
  intros Hne Hall. destruct Hall as [|x l Hx Hl]; [contradiction|].
  unfold Qsum; cbn [foldr]; fold (Qsum l).
  assert (0 <= Qsum l).
  { apply Qsum_nonneg. eapply Forall_impl; [exact Hl|]. intros y Hy. apply Qlt_le_weak, Hy. }
  lra.
Qed.

Lemma Qsum_div (l : list Q) (d : Q) :
  ~ d == 0 -> Qsum ((λ x, x / d) <$> l) == Qsum l / d.
Proof.
  intros Hd. induction l as [|x l IH].
  - unfold Qsum; cbn [fmap list_fmap foldr]. field. exact Hd.
  - rewrite fmap_cons. unfold Qsum; cbn [foldr]. fold (Qsum l).
    fold (Qsum ((λ x, x / d) <$> l)). rewrite IH. field. exact Hd.
Qed.

(** A weighted sum lies between the bounds of its terms, scaled by the
    total weight. *)
Lemma weighted_sum_bounds (lo hi : Q) (ws ps : list Q) :
  length ws = length ps ->
  Forall (λ w, 0 <= w) ws ->
  Forall (λ p, lo <= p <= hi) ps ->
  lo * Qsum ws <= Qsum (zip_with Qmult ws ps) <= hi * Qsum ws.
Proof.
  revert ps. induction ws as [|w ws IH]; intros [|p ps] Hlen Hws Hps;
    try discriminate.
  - unfold Qsum; cbn [zip_with foldr]. lra.
  - inversion Hws as [|? ? Hw Hws']; subst.
    inversion Hps as [|? ? Hp Hps']; subst.
    injection Hlen as Hlen.
    specialize (IH ps Hlen Hws' Hps').
    unfold Qsum in *; cbn [zip_with foldr].
    set (sw := foldr Qplus 0 ws) in *.
    set (sp := foldr Qplus 0 (zip_with Qmult ws ps)) in *.
    split; nra.
Qed.

(** *** The aggregator *)

Lemma fmap_XNum_val (xs : list xq) :
  Forall (λ x, exists q, x = XNum q) xs -> xs = XNum <$> (xq_val <$> xs).
Proof.
  induction 1 as [|x xs [q ->] _ IH]; [reflexivity|].
  cbn [fmap list_fmap xq_val]. f_equal. exact IH.
Qed.

Lemma zip_with_fmul_exact (ws ps : list Q) :
  zip_with fmul (XNum <$> ws) (XNum <$> ps) = XNum <$> zip_with Qmult ws ps.
Proof.
  revert ps. induction ws as [|w ws IH]; intros [|p ps]; try reflexivity.
  cbn [fmap list_fmap zip_with]. f_equal. apply IH.
Qed.

Lemma weights_exact (points : list (VenuePoint xq)) (ls : list Q) :
  liquidity <$> points = XNum <$> ls ->
  0 < Qsum ls ->
  weights_of points =
    XNum <$> ((λ l, l / foldl Qplus (inject_Z 0) ls) <$> ls).
Proof.
  intros Hls Hpos. unfold weights_of. cbn zeta. rewrite Hls, np_sum_exact.
  assert (HL : Qeq_bool (foldl Qplus (inject_Z 0) ls) 0 = false).
  { apply Qeq_bool_false_of_pos. rewrite foldl_from_zero. exact Hpos. }
  generalize dependent (foldl Qplus (inject_Z 0) ls). intros L HL.
  clear Hls Hpos. induction ls as [|l ls IH]; [reflexivity|].
  cbn [fmap list_fmap]. f_equal; [|exact IH].
  cbn [fdiv xq_Float xq_div]. rewrite HL. reflexivity.
Qed.

Lemma aggregator_exact (points : list (VenuePoint xq)) (ps ls : list Q) :
  price <$> points = XNum <$> ps ->
  liquidity <$> points = XNum <$> ls ->
  0 < Qsum ls ->
  compute_liquidity_weighted_benchmark points =
    (XNum (foldl Qplus (inject_Z 0)
             (zip_with Qmult
                ((λ l, l / foldl Qplus (inject_Z 0) ls) <$> ls) ps)),
     XNum (foldl Qplus (inject_Z 0) ls)).
Proof.
  intros Hps Hls Hpos. unfold compute_liquidity_weighted_benchmark. cbn zeta.
  rewrite (weights_exact points ls Hls Hpos), Hps, Hls, np_sum_exact.
  cbn [fleb xq_Float xq_cmp of_Z].
  assert (HL : Qle_bool (foldl Qplus (inject_Z 0) ls) (inject_Z 0) = false).
  { apply Qle_bool_false_iff. rewrite foldl_from_zero. exact Hpos. }
  rewrite HL, zip_with_fmul_exact, np_sum_exact. reflexivity.
Qed.

(** With non-negative liquidities of positive total, the weights are
    non-negative and sum to one, and the benchmark stays within any
    bounds that hold for all the prices. *)
Lemma aggregator_weighted_mean (points : list (VenuePoint xq)) (ps ls : list Q) :
  price <$> points = XNum <$> ps ->
  liquidity <$> points = XNum <$> ls ->
  Forall (λ l, 0 <= l) ls ->
  0 < Qsum ls ->
  exists (ws : list Q) (b L : Q),
    weights_of points = XNum <$> ws /\
    compute_liquidity_weighted_benchmark points = (XNum b, XNum L) /\
    length ws = length ps /\
    Forall (λ w, 0 <= w) ws /\
    Qsum ws == 1 /\ L == Qsum ls /\
    (forall lo hi, Forall (λ p, lo <= p <= hi) ps -> lo <= b <= hi).
Proof.
  intros Hps Hls Hnn Hpos.
  set (L := foldl Qplus (inject_Z 0) ls).
  assert (HL : L == Qsum ls) by apply foldl_from_zero.
  assert (HLpos : 0 < L) by (rewrite HL; exact Hpos).
  exists ((λ l, l / L) <$> ls),
    (foldl Qplus (inject_Z 0) (zip_with Qmult ((λ l, l / L) <$> ls) ps)), L.
  split; [apply weights_exact; assumption|].
  split; [apply aggregator_exact; assumption|].
  assert (Hlen : length ((λ l, l / L) <$> ls) = length ps).
  { rewrite length_fmap.
    apply (f_equal length) in Hps, Hls. rewrite !length_fmap in Hps, Hls. lia. }
  assert (Hws : Forall (λ w, 0 <= w) ((λ l, l / L) <$> ls)).
  { apply Forall_fmap. eapply Forall_impl; [exact Hnn|]. intros l Hl. cbn.
    apply Qle_shift_div_l; [exact HLpos|]. rewrite Qmult_0_l. exact Hl. }
  assert (Hsum : Qsum ((λ l, l / L) <$> ls) == 1).
  { rewrite Qsum_div by lra. rewrite <- HL. field. lra. }
  repeat split; try assumption.
  - rewrite foldl_from_zero.
    pose proof (weighted_sum_bounds lo hi _ ps Hlen Hws H) as [Hlo _].
    rewrite Hsum in Hlo. lra.
  - rewrite foldl_from_zero.
    pose proof (weighted_sum_bounds lo hi _ ps Hlen Hws H) as [_ Hhi].
    rewrite Hsum in Hhi. lra.
Qed.

(** *** The staleness detector *)

Lemma staleness_exact (current_ts last_update_ts : datetime) (thr : Z) :
  detect_staleness (F:=xq) current_ts last_update_ts thr = true <->
  (thr * 1000000 < current_ts - last_update_ts)%Z.
Proof.
  unfold detect_staleness, total_seconds.
  cbn [fltb fdiv of_Z xq_Float xq_div xq_cmp].
  replace (Qeq_bool (inject_Z 1000000) 0) with false by reflexivity.
  cbn [xq_cmp]. rewrite Qlt_bool_iff.
  set (d := (current_ts - last_update_ts)%Z).
  rewrite Zlt_Qlt, inject_Z_mult.
  assert (Hx : inject_Z d / inject_Z 1000000 * (1000000 # 1) == inject_Z d)
    by (field; discriminate).
  change (inject_Z 1000000) with (1000000 # 1) in *.
  set (x := inject_Z d / (1000000 # 1)) in *.
  split; intros Hlt; lra.
Qed.

(** *** The quantile *)

Lemma lerp_exact_le (a b g M : Q) :
  a <= M -> b <= M -> 0 <= g <= 1 ->
  exists r, lerp (XNum a) (XNum b) (XNum g) = XNum r /\ r <= M.
Proof.
  intros Ha Hb [Hg0 Hg1]. unfold lerp.
  cbn [fleb fdiv fsub fadd fmul of_Z xq_Float xq_div xq_cmp xq_lift2].
  replace (Qeq_bool (inject_Z 2) 0) with false by reflexivity.
  cbn [xq_cmp]. change (inject_Z 1) with 1.
  destruct (Qle_bool (1 / inject_Z 2) g); eexists; (split; [reflexivity|]); nra.
Qed.

Lemma existsb_isnan_exact (hist : list xq) :
  Forall (λ x, exists v, x = XNum v) hist -> existsb fisnan hist = false.
Proof.
  induction 1 as [|x xs [v ->] _ IH]; [reflexivity|]. cbn. exact IH.
Qed.

(** If [M] bounds every sample from above, it bounds the quantile. *)
Lemma np_quantile_exact_le (hist : list xq) (q M : Q) :
  hist ≠ [] ->
  0 <= q <= 1 ->
  Forall (λ x, exists v, x = XNum v /\ v <= M) hist ->
  exists r, np_quantile hist (XNum q) = Ok (XNum r) /\ r <= M.
Proof.
  intros Hne [Hq0 Hq1] Hall. unfold np_quantile, quantile_is_valid.
  cbn [fleb of_Z xq_Float xq_cmp].
  assert (Hv : Qle_bool (inject_Z 0) q && Qle_bool q (inject_Z 1) = true).
  { apply andb_true_iff. split; apply Qle_bool_iff; assumption. }
  rewrite Hv. cbn [negb].
  rewrite existsb_isnan_exact
    by (eapply Forall_impl; [exact Hall|]; intros x (v & -> & _); eauto).
  set (arr := merge_sort _ hist).
  assert (Hperm : arr ≡ₚ hist) by apply merge_sort_Permutation.
  assert (Hlen : length arr = length hist) by (rewrite Hperm; reflexivity).
  assert (Hn : (0 < length hist)%nat) by (destruct hist; [contradiction | cbn; lia]).
  assert (Hnth : forall i, (i < length hist)%nat ->
                   exists v, nth i arr XNaN = XNum v /\ v <= M).
  { intros i Hi.
    assert (Hin : nth i arr XNaN ∈ hist).
    { rewrite <- Hperm. apply list_elem_of_In, nth_In. lia. }
    rewrite Forall_forall in Hall. apply Hall in Hin. exact Hin. }
  set (n := Z.of_nat (length hist)).
  cbn [fmul fsub fnan ffloor xq_Float xq_lift2 xq_floor xq_cmp].
  fold n. set (vi := inject_Z (n - 1) * q).
  assert (Hvi0 : 0 <= vi).
  { unfold vi. apply Qmult_le_0_compat; [|exact Hq0].
    change 0 with (inject_Z 0). rewrite <- Zle_Qle. lia. }
  assert (Hg : 0 <= vi - inject_Z (Qfloor vi) <= 1).
  { pose proof (Qfloor_le vi). pose proof (Qlt_floor vi) as Hlt.
    rewrite inject_Z_plus in Hlt. change (inject_Z 1) with 1 in Hlt. lra. }
  assert (Hf0 : (0 <= Qfloor vi)%Z).
  { pose proof (Qlt_floor vi) as Hlt.
    assert (Hlt' : inject_Z 0 < inject_Z (Qfloor vi + 1)) by (change (inject_Z 0) with 0; lra).
    rewrite <- Zlt_Qlt in Hlt'. lia. }
  destruct (Qle_bool (inject_Z (n - 1)) vi) eqn:Habove.
  - destruct (Hnth (Z.to_nat (n - 1))) as (a & Ha & HaM); [lia|].
    rewrite Ha.
    destruct (lerp_exact_le a a _ M HaM HaM Hg) as (r & -> & Hr). eauto.
  - apply Qle_bool_false_iff in Habove.
    assert (Hf1 : (Qfloor vi < n - 1)%Z).
    { rewrite Zlt_Qlt. pose proof (Qfloor_le vi). lra. }
    destruct (Hnth (Z.to_nat (Qfloor vi))) as (a & Ha & HaM); [lia|].
    destruct (Hnth (Z.to_nat (Qfloor vi + 1))) as (b & Hb & HbM); [lia|].
    rewrite Ha, Hb.
    destruct (lerp_exact_le a b _ M HaM HbM Hg) as (r & -> & Hr). eauto.
Qed.

(** A current value that no sample exceeds is not flagged. *)
Lemma thin_upper_bound_not_flagged (hist : list xq) (q M : Q) :
  (10 <= length hist)%nat ->
  0 <= q <= 1 ->
  Forall (λ x, exists v, x = XNum v /\ v <= M) hist ->
  detect_thin_liquidity (XNum M) hist (XNum q) = Ok false.
Proof.
  intros Hlen Hq Hall. rewrite thin_warm by exact Hlen.
  destruct (np_quantile_exact_le hist q M) as (r & -> & Hr);
    [destruct hist; [cbn in Hlen; lia | discriminate] | assumption | assumption |].
  cbn. f_equal. apply not_true_is_false. rewrite Qlt_bool_iff. lra.
Qed.

(** *** The swap *)

Lemma swap_exact (ri ro a fb : Q) :
  0 < ri -> 0 < ro -> 0 < a -> 0 <= fb -> fb <= 10000 ->
  exists nri nro out : Q,
    uniswap_v2_swap (XNum ri) (XNum ro) (XNum a) (XNum fb)
      = Ok (XNum nri, XNum nro, XNum out)
    /\ 0 <= out /\ out < ro /\ 0 < nro /\ ri * ro <= nri * nro.
Proof.
  intros Hri Hro Ha Hfb0 Hfb1.
  unfold uniswap_v2_swap, py_div. cbn [fdiv fmul fsub fadd feqb of_Z xq_Float xq_div xq_lift2 xq_cmp].
  replace (Qeq_bool (inject_Z 10000) 0) with false by reflexivity.
  set (aw := (a * (inject_Z 1 - fb / inject_Z 10000))%Q).
  assert (Hfee : (0 <= fb / inject_Z 10000 <= 1)%Q).
  { split.
    - apply Qle_shift_div_l; [reflexivity|]. lra.
    - apply Qle_shift_div_r; [reflexivity|]. change (inject_Z 10000) with (10000#1)%Q. lra. }
  assert (Haw : (0 <= aw)%Q /\ (aw <= a)%Q).
  { unfold aw. change (inject_Z 1) with 1%Q. split; nra. }
  change (inject_Z 0) with 0%Q.
  cbn [xq_cmp xq_div xq_lift2].
  rewrite !Qeq_bool_false_of_pos by lra. cbn.
  exists (ri + a)%Q, (ro - aw * ro / (ri + aw))%Q, (aw * ro / (ri + aw))%Q.
  split; [reflexivity|].
  assert (Hd : (0 < ri + aw)%Q) by lra.
  assert (Hout : (aw * ro / (ri + aw) * (ri + aw) == aw * ro)%Q).
  { field. lra. }
  set (out := (aw * ro / (ri + aw))%Q) in *.
  assert (H0 : (0 <= out)%Q).
  { unfold out. apply Qle_shift_div_l; [exact Hd|]. nra. }
  assert (H1 : (out < ro)%Q).
  { unfold out. apply Qlt_shift_div_r; [exact Hd|]. nra. }
  repeat split; try lra.
  nra.
Qed.

(** *** Runs on well-formed input complete *)

Lemma default_quantile_valid_exact :
  quantile_is_valid (default_quantile_threshold : xq) = true.
Proof. reflexivity. Qed.

Lemma exists_price_bounds (ps : list Q) :
  Forall (λ p, 0 < p) ps ->
  exists lo hi, 0 < lo /\ Forall (λ p, lo <= p <= hi) ps.
Proof.
  induction 1 as [|p ps Hp _ (lo & hi & Hlo & Hall)].
  - exists 1, 1. split; [reflexivity | constructor].
  - exists (Qmin p lo), (Qmax p hi). split.
    + apply Q.min_glb_lt; assumption.
    + constructor.
      * split; [apply Q.le_min_l | apply Q.le_max_l].
      * eapply Forall_impl; [exact Hall|]. intros x [Hx1 Hx2]. split.
        -- eapply Qle_trans; [apply Q.le_min_r | exact Hx1].
        -- eapply Qle_trans; [exact Hx2 | apply Q.le_max_r].
Qed.

(** With positive prices and non-negative liquidities the benchmark is NaN
    or a positive number. *)
Lemma benchmark_nan_or_positive (pts : list (VenuePoint xq)) :
  Forall well_formed_observation pts ->
  nan_or_positive (fst (compute_liquidity_weighted_benchmark pts)).
Proof.
  intros Hall.
  set (ps := xq_val ∘ price <$> pts).
  set (ls := xq_val ∘ liquidity <$> pts).
  assert (Hps : price <$> pts = XNum <$> ps).
  { unfold ps. rewrite (list_fmap_compose price xq_val). apply fmap_XNum_val.
    apply Forall_fmap. eapply Forall_impl; [exact Hall|].
    intros p (pr & l & Hp & _). cbn. rewrite Hp. eauto. }
  assert (Hls : liquidity <$> pts = XNum <$> ls).
  { unfold ls. rewrite (list_fmap_compose liquidity xq_val). apply fmap_XNum_val.
    apply Forall_fmap. eapply Forall_impl; [exact Hall|].
    intros p (pr & l & _ & Hl & _). cbn. rewrite Hl. eauto. }
  assert (Hlnn : Forall (λ l, 0 <= l) ls).
  { unfold ls. apply Forall_fmap. eapply Forall_impl; [exact Hall|].
    intros p (pr & l & _ & Hl & _ & Hnn). cbn. rewrite Hl. exact Hnn. }
  assert (Hppos : Forall (λ p, 0 < p) ps).
  { unfold ps. apply Forall_fmap. eapply Forall_impl; [exact Hall|].
    intros p (pr & l & Hp & _ & Hpos & _). cbn. rewrite Hp. exact Hpos. }
  destruct (Qlt_le_dec 0 (Qsum ls)) as [Hpos|Hle].
  - destruct (aggregator_weighted_mean pts ps ls Hps Hls Hlnn Hpos)
      as (ws & b & L & _ & Hc & _ & _ & _ & _ & Hb).
    destruct (exists_price_bounds ps Hppos) as (lo & hi & Hlo & Hbounds).
    rewrite Hc. right. exists b. split; [reflexivity|].
    destruct (Hb lo hi Hbounds). lra.
  - left. unfold compute_liquidity_weighted_benchmark. cbn zeta.
    rewrite Hls, np_sum_exact. cbn [fleb xq_Float xq_cmp of_Z].
    assert (HL : Qle_bool (foldl Qplus (inject_Z 0) ls) (inject_Z 0) = true).
    { apply Qle_bool_iff. rewrite foldl_from_zero. exact Hle. }
    rewrite HL. reflexivity.
Qed.

Lemma flash_returns_exact (l : list xq) (thr : xq) :
  Forall nan_or_positive l ->
  exists flag, detect_flash_loan_pattern l thr = Ok flag.
Proof.
  intros Hall.
  destruct (le_lt_dec 3 (length l)) as [Hge|Hlt].
  - destruct (split_last3 l Hge) as (pre & b0 & b1 & b2 & ->).
    destruct (fisnan b0 || fisnan b1 || fisnan b2) eqn:Hnan.
    + rewrite flash_nan by exact Hnan. eauto.
    + rewrite flash_decision; [eauto | exact Hnan |].
      apply Forall_app in Hall as [_ Hall].
      apply Forall_cons in Hall as [[->|(v & -> & Hv)] _]; [discriminate Hnan|].
      cbn. apply Qeq_bool_false_of_pos. exact Hv.
  - rewrite flash_short by exact Hlt. eauto.
Qed.

Lemma step_returns_exact (st : DetectionState xq) (t : Z)
    (pts : list (VenuePoint xq)) :
  Forall nan_or_positive (rolling_benchmarks st) ->
  Forall well_formed_observation pts ->
  exists st', step st t pts = Ok st' /\
              Forall nan_or_positive (rolling_benchmarks st').
Proof.
  intros Hinv Hwf.
  pose proof (benchmark_nan_or_positive pts Hwf) as Hb.
  assert (Hinv' : Forall nan_or_positive
            (rolling_benchmarks st ++ [fst (compute_liquidity_weighted_benchmark pts)])).
  { apply Forall_app. split; [exact Hinv|]. constructor; [exact Hb | constructor]. }
  destruct (thin_returns (snd (compute_liquidity_weighted_benchmark pts))
              (rolling_liq st ++ [snd (compute_liquidity_weighted_benchmark pts)])
              _ default_quantile_valid_exact) as [thin Hthin].
  destruct (flash_returns_exact _ default_spike_threshold_pct Hinv') as [flash Hflash].
  destruct (step_returns st t pts thin flash Hthin Hflash) as [st' Hstep].
  exists st'. split; [exact Hstep|].
  destruct (step_ok_inv _ _ _ _ Hstep) as (? & ? & _ & _ & ->). exact Hinv'.
Qed.

Lemma run_loop_returns_exact (m : gmap Z (list (VenuePoint xq)))
    (tss : list Z) (st : DetectionState xq) :
  (forall t, Forall well_formed_observation (default [] (m !! t))) ->
  Forall nan_or_positive (rolling_benchmarks st) ->
  exists st', run_loop m tss st = Ok st'.
Proof.
  intros Hm. revert st. induction tss as [|t tss IH]; intros st Hinv; cbn.
  - eauto.
  - destruct (step_returns_exact st t _ Hinv (Hm t)) as (st1 & -> & Hinv1). cbn.
    apply IH. exact Hinv1.
Qed.

(** On input inside the data model - numeric, positive prices and
    non-negative liquidities - a run always completes. *)
Lemma run_state_returns_exact (series : list (VenuePoint xq)) :
  Forall well_formed_observation series ->
  exists st, run_state series = Ok st.
Proof.
  intros Hwf. unfold run_state.
  apply run_loop_returns_exact; [|constructor].
  intros t. rewrite group_by_ts_lookup.
  rewrite Forall_forall in *. intros p Hp.
  apply Hwf. apply list_elem_of_filter in Hp. tauto.
Qed.

Lemma run_demo_returns_exact (series : list (VenuePoint xq)) :
  Forall well_formed_observation series ->
  exists recs, run_demo series = Ok recs /\
               bp_ts <$> recs = sorted_keys (group_by_ts series).
Proof.
  intros Hwf. destruct (run_state_returns_exact series Hwf) as [st Hrun].
  unfold run_demo. rewrite Hrun. cbn. eexists. split; [reflexivity|].
  destruct (run_loop_histories _ _ _ _ Hrun) as (Hh & _ & _). exact Hh.
Qed.

(** *** The weighted mean of the claim *)

(** In exact arithmetic, for a non-empty observation set with numeric prices
    and positive liquidities: the weights sum to one, the total is the sum
    of the liquidities, the benchmark respects every pair of bounds on the
    prices, and a single venue gets weight one and its own price. *)
Lemma positive_liquidity_mean_exact (points : list (VenuePoint xq)) :
  points ≠ [] ->
  Forall (λ p, exists pr l, price p = XNum pr /\ liquidity p = XNum l /\ (0 < l)%Q)
         points ->
  exists (ws : list Q) (b L : Q),
    weights_of points = XNum <$> ws /\
    compute_liquidity_weighted_benchmark points = (XNum b, XNum L) /\
    (Qsum ws == 1)%Q /\
    (L == Qsum (xq_val ∘ liquidity <$> points))%Q /\
    (forall lo hi,
       (forall p, p ∈ points -> (lo <= xq_val (price p) <= hi)%Q) ->
       (lo <= b <= hi)%Q) /\
    (forall p, points = [p] ->
       exists w, ws = [w] /\ (w == 1)%Q /\ (b == xq_val (price p))%Q).
Proof.
  intros Hne Hall.
  set (ps := xq_val ∘ price <$> points).
  set (ls := xq_val ∘ liquidity <$> points).
  assert (Hps : price <$> points = XNum <$> ps).
  { unfold ps. rewrite (list_fmap_compose price xq_val). apply fmap_XNum_val.
    apply Forall_fmap. eapply Forall_impl; [exact Hall|].
    intros p (pr & l & Hp & _). cbn. rewrite Hp. eauto. }
  assert (Hls : liquidity <$> points = XNum <$> ls).
  { unfold ls. rewrite (list_fmap_compose liquidity xq_val). apply fmap_XNum_val.
    apply Forall_fmap. eapply Forall_impl; [exact Hall|].
    intros p (pr & l & _ & Hl & _). cbn. rewrite Hl. eauto. }
  assert (Hlpos : Forall (λ l, 0 < l)%Q ls).
  { unfold ls. apply Forall_fmap. eapply Forall_impl; [exact Hall|].
    intros p (pr & l & _ & Hl & Hpos). cbn. rewrite Hl. exact Hpos. }
  assert (Hlnn : Forall (λ l, 0 <= l)%Q ls).
  { eapply Forall_impl; [exact Hlpos|]. intros l Hl. apply Qlt_le_weak, Hl. }
  assert (Hsum : (0 < Qsum ls)%Q).
  { apply Qsum_pos; [|exact Hlpos]. unfold ls. destruct points; [contradiction|discriminate]. }
  destruct (aggregator_weighted_mean points ps ls Hps Hls Hlnn Hsum)
    as (ws & b & L & Hw & Hc & Hlen & Hwnn & Hw1 & HL & Hb).
  exists ws, b, L.
  assert (Hbounds : forall lo hi,
            (forall p, p ∈ points -> (lo <= xq_val (price p) <= hi)%Q) ->
            (lo <= b <= hi)%Q).
  { intros lo hi Hp. apply Hb. unfold ps. apply Forall_fmap, Forall_forall.
    intros p Hin. apply Hp, Hin. }
  repeat split; try assumption.
  - apply (Hbounds lo hi H).
  - apply (Hbounds lo hi H).
  - intros p ->.
    destruct ws as [|w [|w' ws]]; cbn in Hlen; try discriminate.
    exists w. split; [reflexivity|]. split.
    + unfold Qsum in Hw1. cbn in Hw1. lra.
    + assert (Hp : (xq_val (price p) <= b <= xq_val (price p))%Q).
      { apply Hbounds. intros p' Hin. apply list_elem_of_singleton in Hin. subst p'. lra. }
      lra.
Qed.

End ExactFacts.

(** * Facts of binary64 arithmetic *)

Module Binary64Facts.
Import Binary64.

Lemma Z_div_eucl_mul (a b : Z) : b <> 0 -> Z.div_eucl (a * b) b = (a, 0).
Proof.
  intros Hb.
  pose proof (Z.div_mul a b Hb) as Hq. pose proof (Z.mod_mul a b Hb) as Hr.
  unfold Z.div, Z.modulo in Hq, Hr.
  destruct (Z.div_eucl (a * b) b) as [q r]. cbn in Hq, Hr. congruence.
Qed.

Lemma new_location_zero (n : Z) : new_location n 0 = loc_Exact.
Proof.
  unfold new_location, new_location_even, new_location_odd.
  destruct (Z.even n); reflexivity.
Qed.

(** [x / x] is exactly 1.0 for every finite non-zero [x]. *)
Lemma b64_div_self (s : bool) (m : positive) (e : Z) :
  fdiv (S754_finite s m e : float64) (S754_finite s m e) = of_Z 1.
Proof.
  change (fdiv (S754_finite s m e : float64) (S754_finite s m e))
    with (SFdiv prec emax (S754_finite s m e) (S754_finite s m e)).
  unfold SFdiv, SFdiv_core_binary. cbn [Zdigits2].
  replace (Z.pos (digits2_pos m) + e - (Z.pos (digits2_pos m) + e)) with 0 by lia.
  replace (e - e) with 0 by lia.
  change (Z.min (fexp prec emax 0) 0) with (-53).
  change (0 - -53) with 53.
  rewrite Z.shiftl_mul_pow2 by lia.
  rewrite Z.mul_comm. rewrite Z_div_eucl_mul by discriminate.
  rewrite new_location_zero.
  destruct s; vm_compute; reflexivity.
Qed.

(** [1.0 * p] is exactly [p] for every finite [p] in canonical form. *)
Lemma b64_mul_one (s : bool) (m : positive) (e : Z) :
  bounded prec emax m e = true ->
  fmul (of_Z 1 : float64) (S754_finite s m e) = S754_finite s m e.
Proof.
  intros Hb. apply andb_true_iff in Hb as [Hc He].
  unfold canonical_mantissa in Hc. apply Z.eqb_eq in Hc.
  change (fmul (of_Z 1 : float64) (S754_finite s m e))
    with (SFmul prec emax (S754_finite false 4503599627370496 (-52))
            (S754_finite s m e)).
  unfold SFmul. cbn [xorb].
  let t := eval cbv [Pos.iter] in (Pos.iter xO m 52) in
  change (4503599627370496 * m)%positive with t.
  unfold binary_round_aux, shr_fexp. cbn [Zdigits2 digits2_pos shr_record_of_loc].
  rewrite !Pos2Z.inj_succ.
  set (d := Z.pos (digits2_pos m)) in *.
  match goal with
  | |- context [fexp prec emax ?x - (-52 + e)] =>
      replace x with (d + e) by lia
  end.
  rewrite Hc. replace (e - (-52 + e)) with 52 by lia.
  cbn [shr].
  match goal with
  | |- context [SpecFloat.iter_pos shr_1 52 ?r] =>
      change (SpecFloat.iter_pos shr_1 52 r)
        with {| shr_m := Z.pos m; shr_r := false; shr_s := false |}
  end.
  replace (-52 + e + 52) with e by lia.
  cbn [shr_m loc_of_shr_record round_nearest_even Zdigits2].
  fold d. rewrite Hc, Z.sub_diag. cbn [shr shr_m]. rewrite He. reflexivity.
Qed.

(** With a single venue of finite positive liquidity and a finite price in
    canonical form, the weight is exactly 1.0 and the aggregator returns the
    venue's own price and liquidity. *)
Lemma single_venue_b64 (pt : VenuePoint float64)
    (ml mp : positive) (el ep : Z) (sp : bool) :
  liquidity pt = S754_finite false ml el ->
  price pt = S754_finite sp mp ep ->
  bounded prec emax mp ep = true ->
  weights_of [pt] = [of_Z 1] /\
  compute_liquidity_weighted_benchmark [pt] = (price pt, liquidity pt).
Proof.
  intros Hl Hp Hb.
  assert (Hsum : np_sum (liquidity <$> [pt]) = liquidity pt).
  { cbn [fmap list_fmap]. unfold np_sum. cbn [foldl]. rewrite Hl. reflexivity. }
  assert (Hw : weights_of [pt] = [of_Z 1]).
  { unfold weights_of. cbn zeta. rewrite Hsum. cbn [fmap list_fmap].
    rewrite Hl, b64_div_self. reflexivity. }
  split; [exact Hw|].
  unfold compute_liquidity_weighted_benchmark. cbn zeta.
  rewrite Hw, Hsum.
  assert (Hle : fleb (liquidity pt) (of_Z 0) = false) by (rewrite Hl; reflexivity).
  rewrite Hle. cbn [fmap list_fmap zip_with].
  unfold np_sum. cbn [foldl]. rewrite Hp, (b64_mul_one sp mp ep Hb). reflexivity.
Qed.

End Binary64Facts.

(** * The claims *)

Import Binary64 Exact ExactFacts Binary64Facts.

(** The literal [0.2] is a valid quantile in binary64. *)
Lemma default_quantile_valid_b64 :
  quantile_is_valid (default_quantile_threshold : float64) = true.
Proof. vm_compute. reflexivity. Qed.

(** C1, counterexample: on the window (0, 1, 2) no value is NaN and the
    baseline is zero; the percentage change divides by it, so the detector
    raises [ZeroDivisionError] and returns no flag at all. *)
Lemma C1_counterexample_zero_baseline :
  ~ exists flag : bool,
      detect_flash_loan_pattern (F:=float64) [of_Z 0; of_Z 1; of_Z 2]
        default_spike_threshold_pct = Ok flag.
Proof. intros [flag Hflag]. vm_compute in Hflag. discriminate Hflag. Qed.

(** C1 (amended): for every list of recent benchmark values the flash-loan
    detector returns false when fewer than 3 values are available or when
    any of the last three is NaN; otherwise, with the last three values
    (b0, b1, b2) in chronological order and b0 not zero, it returns false
    when (b2 - b0) / b0 * 100 is strictly less than the spike threshold, and
    otherwise returns the truth value of |b1 - b0| < |b2 - b0|.  At the
    default threshold 4.0, (100, 101, 106) and (100, 110, 120) are flagged
    and (100, 99, 101) is not. *)
Theorem C1_flash_loan_detector (recent : list float64) (thr : float64) :
  ((length recent < 3)%nat ->
     detect_flash_loan_pattern recent thr = Ok false) /\
  (forall pre b0 b1 b2, recent = pre ++ [b0; b1; b2] ->
     (fisnan b0 || fisnan b1 || fisnan b2 = true ->
        detect_flash_loan_pattern recent thr = Ok false) /\
     (fisnan b0 || fisnan b1 || fisnan b2 = false ->
      feqb b0 (of_Z 0) = false ->
      let jump_pct := fmul (fdiv (fsub b2 b0) b0) (of_Z 100) in
      (fltb jump_pct thr = true ->
         detect_flash_loan_pattern recent thr = Ok false) /\
      (fltb jump_pct thr = false ->
         detect_flash_loan_pattern recent thr =
           Ok (fltb (fabs (fsub b1 b0)) (fabs (fsub b2 b0)))))) /\
  detect_flash_loan_pattern (F:=float64) [of_Z 100; of_Z 101; of_Z 106]
    default_spike_threshold_pct = Ok true /\
  detect_flash_loan_pattern (F:=float64) [of_Z 100; of_Z 110; of_Z 120]
    default_spike_threshold_pct = Ok true /\
  detect_flash_loan_pattern (F:=float64) [of_Z 100; of_Z 99; of_Z 101]
    default_spike_threshold_pct = Ok false.
Proof.
  split; [apply flash_short|].
  split.
  - intros pre b0 b1 b2 ->. split.
    + apply flash_nan.
    + intros Hnan Hz jump_pct. subst jump_pct.
      rewrite (flash_decision pre b0 b1 b2 thr Hnan Hz).
      split; intros ->; reflexivity.
  - repeat split; vm_compute; reflexivity.
Qed.

Lemma C1_flash_loan_detector_witness :
  let b0 : float64 := of_Z 100 in
  let b1 : float64 := of_Z 101 in
  let b2 : float64 := of_Z 106 in
  fisnan b0 || fisnan b1 || fisnan b2 = false /\
  feqb b0 (of_Z 0) = false /\
  fltb (fmul (fdiv (fsub b2 b0) b0) (of_Z 100)) default_spike_threshold_pct = false /\
  detect_flash_loan_pattern [b0; b1; b2] default_spike_threshold_pct =
    Ok (fltb (fabs (fsub b1 b0)) (fabs (fsub b2 b0))).
Proof.
  intros b0 b1 b2.
  assert (Hnan : fisnan b0 || fisnan b1 || fisnan b2 = false)
    by (vm_compute; reflexivity).
  assert (Hz : feqb b0 (of_Z 0) = false) by (vm_compute; reflexivity).
  assert (Hj : fltb (fmul (fdiv (fsub b2 b0) b0) (of_Z 100))
                 default_spike_threshold_pct = false)
    by (vm_compute; reflexivity).
  split; [exact Hnan|]. split; [exact Hz|]. split; [exact Hj|].
  destruct (C1_flash_loan_detector [b0; b1; b2] default_spike_threshold_pct)
    as (_ & Hwin & _).
  destruct (Hwin [] b0 b1 b2 eq_refl) as (_ & Hnum).
  destruct (Hnum Hnan Hz) as (_ & Hdec).
  exact (Hdec Hj).
Defined.

(** C2, counterexample: the first group of a run has zero total liquidity,
    so its benchmark is NaN; the seeding on the first pass still stores its
    timestamp in [last_update_ts], and no record with a numeric benchmark
    carries that timestamp. *)
Lemma C2_counterexample_seeded_on_sentinel :
  exists st,
    run_state
      [ {| ts := 0; venue := "DEX_POOL"; price := of_Z 100 : float64;
           liquidity := of_Z 0 |} ] = Ok st /\
    last_update_ts st = Some 0 /\
    forall r, r ∈ benchmark_history st -> fisnan (benchmark_price r) = true.
Proof.
  eexists. split; [vm_compute; reflexivity|]. split; [reflexivity|].
  intros r Hr. apply list_elem_of_singleton in Hr. subst r. reflexivity.
Qed.

(** C2 (amended): on the first step of a run [last_update_ts] is seeded with
    that step's timestamp whatever its benchmark; in every step the
    staleness detector consults the value held before the step's own update,
    and the step then stores the current timestamp when the benchmark is a
    number and keeps the consulted value when it is NaN.  Hence throughout
    any run [last_update_ts] is either the first timestamp processed or the
    timestamp of a step whose benchmark was not NaN. *)
Theorem C2_last_update_ts :
  (forall (st st' : DetectionState float64) t pts,
     step st t pts = Ok st' ->
     let b := fst (compute_liquidity_weighted_benchmark pts) in
     (forall r, last (benchmark_history st') = Some r ->
        staleness_flag r =
          detect_staleness (F:=float64) t (consulted_ts st t)
            default_max_staleness_seconds) /\
     (fisnan b = false -> last_update_ts st' = Some t) /\
     (fisnan b = true -> last_update_ts st' = Some (consulted_ts st t))) /\
  (forall (series : list (VenuePoint float64)) st,
     run_state series = Ok st -> last_update_justified st).
Proof.
  split.
  - intros st st' t pts Hstep b.
    destruct (step_ok_inv _ _ _ _ Hstep) as (thin & flash & _ & _ & ->).
    cbn [benchmark_history last_update_ts]. fold b.
    split; [|split].
    + intros r Hr. rewrite last_snoc in Hr. apply (inj Some) in Hr.
      rewrite <- Hr. reflexivity.
    + intros ->. reflexivity.
    + intros ->. reflexivity.
  - intros series st Hrun. unfold run_state in Hrun.
    eapply run_loop_last_update_justified; [exact Hrun|]. reflexivity.
Qed.

Lemma C2_last_update_ts_witness :
  let p : VenuePoint float64 :=
    {| ts := 0; venue := "CEX_A"; price := of_Z 100; liquidity := of_Z 5 |} in
  exists st', step initial_state 0 [p] = Ok st' /\ last_update_ts st' = Some 0.
Proof.
  intros p.
  assert (Hstep : exists st', step (F:=float64) initial_state 0 [p] = Ok st').
  { eexists. vm_compute. reflexivity. }
  destruct Hstep as [st' Hstep]. exists st'. split; [exact Hstep|].
  destruct C2_last_update_ts as [Hs _].
  destruct (Hs initial_state st' 0 [p] Hstep) as (_ & Hvalid & _).
  apply Hvalid. vm_compute. reflexivity.
Defined.

(** C3, counterexample: a series whose second observation is older than its
    first is neither rejected nor cut short; both timestamps are processed,
    in ascending order. *)
Lemma C3_counterexample_reordered :
  exists recs,
    run_demo
      [ {| ts := 10; venue := "CEX_A"; price := of_Z 100 : float64;
           liquidity := of_Z 5 |};
        {| ts := 5; venue := "CEX_A"; price := of_Z 101;
           liquidity := of_Z 5 |} ] = Ok recs /\
    bp_ts <$> recs = [5; 10].
Proof. eexists. split; vm_compute; reflexivity. Qed.

(** C3 (amended): for every input series, in whatever order its observations
    come, the orchestrator groups them by timestamp, visits the distinct
    timestamps in strictly ascending order and emits one record for each;
    exchanging blocks of observations that share no timestamp changes
    nothing.  No input is rejected for its order: the only exception a run
    can raise is the flash detector's [ZeroDivisionError]. *)
Theorem C3_orchestrator_sorts (series : list (VenuePoint float64)) :
  (forall recs, run_demo series = Ok recs ->
     StronglySorted Z.lt (bp_ts <$> recs) /\
     (forall t, t ∈ bp_ts <$> recs <-> t ∈ ts <$> series)) /\
  (forall e, run_demo series = Raise e -> e = ZeroDivisionError) /\
  (forall a b, series = a ++ b ->
     (forall p q, p ∈ a -> q ∈ b -> ts p ≠ ts q) ->
     run_demo (b ++ a) = run_demo series).
Proof.
  split; [|split].
  - intros recs Hrun. unfold run_demo, run_state in Hrun.
    destruct (run_loop _ _ _) as [st|e] eqn:Hloop; cbn in Hrun; [|discriminate].
    injection Hrun as <-.
    destruct (run_loop_histories _ _ _ _ Hloop) as (Hts & _ & _).
    cbn in Hts. rewrite Hts. split.
    + apply sorted_keys_increasing.
    + intros t. apply sorted_keys_elem_of.
  - intros e Hrun. unfold run_demo, run_state in Hrun.
    destruct (run_loop _ _ _) as [st|e'] eqn:Hloop; cbn in Hrun; [discriminate|].
    injection Hrun as <-.
    exact (run_loop_raises_only_zero_division (F:=float64) _ _ _ _
             default_quantile_valid_b64 Hloop).
  - intros a b -> Hdisj. unfold run_demo, run_state.
    rewrite (group_by_ts_app_comm a b Hdisj). reflexivity.
Qed.

Lemma C3_orchestrator_sorts_witness :
  let p10 : VenuePoint float64 :=
    {| ts := 10; venue := "CEX_A"; price := of_Z 100; liquidity := of_Z 5 |} in
  let p5 : VenuePoint float64 :=
    {| ts := 5; venue := "CEX_A"; price := of_Z 101; liquidity := of_Z 5 |} in
  (forall p q, p ∈ [p10] -> q ∈ [p5] -> ts p ≠ ts q) /\
  run_demo ([p5] ++ [p10]) = run_demo ([p10] ++ [p5]).
Proof.
  intros p10 p5.
  assert (Hdisj : forall p q, p ∈ [p10] -> q ∈ [p5] -> ts p ≠ ts q).
  { intros p q Hp Hq.
    apply list_elem_of_singleton in Hp. apply list_elem_of_singleton in Hq.
    subst p q. discriminate. }
  split; [exact Hdisj|].
  destruct (C3_orchestrator_sorts ([p10] ++ [p5])) as (_ & _ & Hcomm).
  exact (Hcomm [p10] [p5] eq_refl Hdisj).
Defined.










(** C8: every completed per-timestamp step appends exactly one element to
    the liquidity history and one to the benchmark history, so the two have
    equal length after every step of a run; steps whose benchmark is NaN
    (among them those with zero total liquidity) complete like the others,
    and the only steps that do not complete are those in which the flash
    detector raises; in exact arithmetic, on numeric input with positive
    prices and non-negative liquidities, every run completes. *)
Theorem C8_histories_grow_together :
  (forall (st st' : DetectionState float64) t pts,
     step st t pts = Ok st' ->
     length (rolling_liq st') = S (length (rolling_liq st)) /\
     length (rolling_benchmarks st') = S (length (rolling_benchmarks st)) /\
     (length (rolling_liq st) = length (rolling_benchmarks st) ->
      length (rolling_liq st') = length (rolling_benchmarks st'))) /\
  (forall (st : DetectionState float64) t pts,
     fisnan (fst (compute_liquidity_weighted_benchmark pts)) = true ->
     exists st', step st t pts = Ok st') /\
  (forall (st : DetectionState float64) t pts e,
     step st t pts = Raise e ->
     detect_flash_loan_pattern
       (rolling_benchmarks st ++ [fst (compute_liquidity_weighted_benchmark pts)])
       default_spike_threshold_pct = Raise ZeroDivisionError) /\
  (forall (series : list (VenuePoint float64)) st,
     run_state series = Ok st ->
     length (rolling_liq st) = length (rolling_benchmarks st) /\
     length (rolling_liq st) = length (sorted_keys (group_by_ts series))) /\
  (forall series : list (VenuePoint xq),
     Forall well_formed_observation series ->
     exists st, run_state series = Ok st /\
       length (rolling_liq st) = length (rolling_benchmarks st) /\
       length (rolling_liq st) = length (sorted_keys (group_by_ts series))).
Proof.
  split; [|split; [|split; [|split]]].
  - intros st st' t pts Hstep.
    destruct (step_lengths _ _ _ _ Hstep) as (Hl & Hb & _).
    repeat split; [exact Hl | exact Hb | lia].
  - intros st t pts Hnan.
    exact (step_sentinel_returns (F:=float64) st t pts
             default_quantile_valid_b64 Hnan).
  - intros st t pts e Hstep.
    exact (step_raise_is_flash (F:=float64) st t pts e
             default_quantile_valid_b64 Hstep).
  - intros series st Hrun. unfold run_state in Hrun.
    destruct (run_loop_histories _ _ _ _ Hrun) as (_ & Hl & Hb).
    unfold initial_state in Hl, Hb.
    cbn [rolling_liq rolling_benchmarks length] in Hl, Hb.
    split; lia.
  - intros series Hwf.
    destruct (run_state_returns_exact series Hwf) as [st Hrun].
    exists st. split; [exact Hrun|]. unfold run_state in Hrun.
    destruct (run_loop_histories _ _ _ _ Hrun) as (_ & Hl & Hb).
    unfold initial_state in Hl, Hb.
    cbn [rolling_liq rolling_benchmarks length] in Hl, Hb.
    split; lia.
Qed.

Lemma C8_histories_grow_together_witness :
  let p : VenuePoint float64 :=
    {| ts := 0; venue := "DEX_POOL"; price := of_Z 100; liquidity := of_Z 0 |} in
  exists st',
    step initial_state 0 [p] = Ok st' /\
    length (rolling_liq st') = 1%nat /\
    length (rolling_benchmarks st') = 1%nat.
Proof.
  intros p.
  destruct C8_histories_grow_together as (Hgrow & Hsent & _).
  destruct (Hsent initial_state 0 [p]) as [st' Hstep]; [vm_compute; reflexivity|].
  exists st'. split; [exact Hstep|].
  destruct (Hgrow initial_state st' 0 [p] Hstep) as (Hl & Hb & _).
  split; [exact Hl | exact Hb].
Defined.




(** C10: the per-pool summary depends only on the events whose event type
    is "SWAP": two event lists with the same SWAP events in the same order
    have identical summaries.  In the summary of a pool, the entry
    "<token>_sold" is the running sum, from 0.0 and in event order, of
    [amount_in] over the pool's SWAP events that sell the token, and the
    entry "<token>_bought" the running sum of [amount_out] over those that
    buy it; an entry is absent when there is no such event. *)
Theorem C10_summary_from_swaps_only :
  (forall ev1 ev2 : list (LogEvent float64),
     filter (λ e, event_type e = "SWAP") ev1 =
       filter (λ e, event_type e = "SWAP") ev2 ->
     summarize_swaps ev1 = summarize_swaps ev2) /\
  (forall (events : list (LogEvent float64)) (p t : string),
     entry (summarize_swaps events) p (t +:+ "_sold") =
       match sold_flows events p t with
       | [] => None
       | flows => Some (foldl fadd (of_Z 0) flows)
       end /\
     entry (summarize_swaps events) p (t +:+ "_bought") =
       match bought_flows events p t with
       | [] => None
       | flows => Some (foldl fadd (of_Z 0) flows)
       end).
Proof.
  split.
  - intros ev1 ev2 Hsame.
    rewrite (summarize_swaps_filter ev1), (summarize_swaps_filter ev2), Hsame.
    reflexivity.
  - intros events p t. unfold summarize_swaps. split.
    + rewrite entry_fold_sold. reflexivity.
    + rewrite entry_fold_bought. reflexivity.
Qed.

Lemma C10_summary_from_swaps_only_witness :
  let swap : LogEvent float64 :=
    {| tx_hash := "0xabc1"; event_type := "SWAP"; pool := "POOL_ETH_USDC";
       token_in := "ETH"; token_out := "USDC";
       amount_in := of_Z 2; amount_out := of_Z 2400 |} in
  let transfer : LogEvent float64 :=
    {| tx_hash := "0xabc4"; event_type := "TRANSFER"; pool := "POOL_ETH_USDC";
       token_in := "ETH"; token_out := "ETH";
       amount_in := of_Z 1; amount_out := of_Z 1 |} in
  summarize_swaps [swap; transfer] = summarize_swaps [transfer; swap; transfer].
Proof.
  intros swap transfer.
  destruct C10_summary_from_swaps_only as (Hsame & _).
  apply Hsame. reflexivity.
Defined.

(** * Further properties of the sources *)

(** ** cex_dex_divergence_monitor.py *)

Section MonitorFacts.
Context {F : Type} `{Float F}.

Lemma divergence_points_lookup (ts_list : list Z) (cex dex : list F)
    (thr : F) (i : nat) :
  compute_divergence_points ts_list cex dex thr !! i =
    match ts_list !! i, cex !! i, dex !! i with
    | Some t, Some cp, Some dp => Some (divergence_point t cp dp thr)
    | _, _, _ => None
    end.
Proof.
  revert cex dex i.
  induction ts_list as [|t ts_list IH]; intros [|cp cex] [|dp dex] [|i]; cbn;
    try reflexivity; try apply IH; repeat case_match; reflexivity.
Qed.

Lemma divergence_points_length (ts_list : list Z) (cex dex : list F) (thr : F) :
  length (compute_divergence_points ts_list cex dex thr) =
    (length ts_list `min` (length cex `min` length dex))%nat.
Proof.
  revert cex dex.
  induction ts_list as [|t ts_list IH]; intros [|cp cex] [|dp dex];
    cbn [compute_divergence_points length]; try rewrite IH; lia.
Qed.

End MonitorFacts.

Module MonitorExact.
Import Exact ExactFacts.
Local Open Scope Q_scope.

Lemma Qeq_bool_false_of_neq (q : Q) : ~ q == 0 -> Qeq_bool q 0 = false.
Proof.
  intros Hq. destruct (Qeq_bool q 0) eqn:E; [|reflexivity].
  apply Qeq_bool_iff in E. contradiction.
Qed.

Lemma Qabs_pos_of_neq (q : Q) : ~ q == 0 -> 0 < Qabs q.
Proof.
  intros Hq. destruct (Qlt_le_dec 0 (Qabs q)) as [Hlt|Hle]; [exact Hlt|].
  exfalso. apply Hq.
  pose proof (Qabs_nonneg q) as Hnn.
  assert (Hz : Qabs q == 0) by lra.
  pose proof (Qabs_Qle_condition q 0) as [Hc _].
  destruct Hc as [H1 H2]; [lra|]. lra.
Qed.

(** The deviation and the flag of one point, in exact arithmetic. *)
Lemma divergence_point_exact (t : Z) (c d thr : Q) :
  ~ c == 0 ->
  divergence_point t (XNum c) (XNum d) (XNum thr) =
    {| dv_ts := t; cex_price := XNum c; dex_price := XNum d;
       deviation_pct := XNum ((d - c) / c * inject_Z 100);
       flagged := Qle_bool thr (Qabs ((d - c) / c * inject_Z 100)) |}.
Proof.
  intros Hc. unfold divergence_point.
  cbn [fmul fdiv fsub fabs fleb of_Z xq_Float xq_lift2 xq_div xq_cmp xq_abs].
  rewrite (Qeq_bool_false_of_neq c Hc). reflexivity.
Qed.

Lemma Qabs_deviation (c d : Q) :
  ~ c == 0 ->
  Qabs ((d - c) / c * inject_Z 100) * Qabs c == 100 * Qabs (d - c).
Proof.
  intros Hc. unfold Qdiv.
  rewrite !Qabs_Qmult, Qabs_Qinv.
  change (Qabs (inject_Z 100)) with 100.
  pose proof (Qabs_pos_of_neq c Hc) as Hpos.
  field. lra.
Qed.

Lemma flagged_exact_iff (t : Z) (c d thr : Q) :
  ~ c == 0 ->
  flagged (divergence_point t (XNum c) (XNum d) (XNum thr)) = true <->
  thr * Qabs c <= 100 * Qabs (d - c).
Proof.
  intros Hc. rewrite (divergence_point_exact t c d thr Hc). cbn [flagged].
  rewrite Qle_bool_iff, <- (Qabs_deviation c d Hc).
  pose proof (Qabs_pos_of_neq c Hc) as Hpos.
  set (x := Qabs ((d - c) / c * inject_Z 100)) in *.
  split; intros Hle; nra.
Qed.

End MonitorExact.

(** ** flashloan_simulator.py *)

Module SwapExact.
Import Exact ExactFacts.
Local Open Scope Q_scope.

(** The share of the input that is traded: [1 - fee]. *)
Lemma fee_share_bounds (fb : Q) :
  0 <= fb -> fb <= 10000 -> 0 <= 1 - fb / 10000 <= 1.
Proof.
  intros H0 H1.
  assert (Hx : fb / 10000 * 10000 == fb) by (field; discriminate).
  set (x := fb / 10000) in *. lra.
Qed.

(** Closed form of a swap whose denominator is not zero. *)
Lemma swap_exact_form (ri ro a fb : Q) :
  ~ ri + a * (1 - fb / 10000) == 0 ->
  uniswap_v2_swap (XNum ri) (XNum ro) (XNum a) (XNum fb) =
    Ok (XNum (ri + a),
        XNum (ro - a * (1 - fb / 10000) * ro / (ri + a * (1 - fb / 10000))),
        XNum (a * (1 - fb / 10000) * ro / (ri + a * (1 - fb / 10000)))).
Proof.
  intros Hd. unfold uniswap_v2_swap, py_div.
  cbn [fdiv fmul fsub fadd feqb of_Z xq_Float xq_div xq_lift2 xq_cmp].
  replace (Qeq_bool (inject_Z 10000) 0) with false by reflexivity.
  cbn [xq_lift2 xq_cmp xq_div].
  change (inject_Z 1) with 1. change (inject_Z 10000) with 10000.
  change (inject_Z 0) with 0.
  destruct (Qeq_bool _ 0) eqn:E.
  - apply Qeq_bool_iff in E. exfalso. apply Hd. exact E.
  - reflexivity.
Qed.

Lemma price_exact_form (ri ro : Q) :
  ~ ri == 0 -> uniswap_v2_price (XNum ri) (XNum ro) = Ok (XNum (ro / ri)).
Proof.
  intros Hr. unfold uniswap_v2_price, py_div.
  cbn [fdiv feqb of_Z xq_Float xq_div xq_cmp]. change (inject_Z 0) with 0.
  assert (Hb : Qeq_bool ri 0 = false).
  { destruct (Qeq_bool ri 0) eqn:E; [|reflexivity].
    apply Qeq_bool_iff in E. contradiction. }
  rewrite Hb. reflexivity.
Qed.

(** A swap into a pool with a positive input reserve returns, and its
    output is determined by [out * (ri + a * g) == a * g * ro], where
    [g = 1 - fee] is the traded share. *)
Lemma swap_exact_spec (ri ro a fb : Q) :
  0 < ri -> 0 <= a -> 0 <= fb -> fb <= 10000 ->
  exists g out,
    uniswap_v2_swap (XNum ri) (XNum ro) (XNum a) (XNum fb) =
      Ok (XNum (ri + a), XNum (ro - out), XNum out) /\
    g == 1 - fb / 10000 /\ 0 <= g <= 1 /\
    out * (ri + a * g) == a * g * ro.
Proof.
  intros Hri Ha Hfb0 Hfb1.
  pose proof (fee_share_bounds fb Hfb0 Hfb1) as Hg.
  exists (1 - fb / 10000).
  remember (1 - fb / 10000) as g eqn:Eg.
  destruct Hg as [Hg0 Hg1].
  assert (Hd : 0 < ri + a * g) by nra.
  eexists. split; [|split; [reflexivity | split; [split; assumption|]]].
  - rewrite Eg. apply swap_exact_form. rewrite <- Eg. lra.
  - rewrite <- Eg. field. lra.
Qed.

End SwapExact.

(** ** oracle_anomaly_demo.py: the loop of [run_demo] as a whole *)

Section RunFacts.
Context {F : Type} `{Float F}.

Lemma run_invariant_initial (m : gmap Z (list (VenuePoint F))) :
  run_invariant m initial_state.
Proof.
  unfold run_invariant, staleness_replayed, last_update_tracks. cbn.
  repeat split; try reflexivity; intros; discriminate.
Qed.

Lemma lookup_snoc_inv {A} (l : list A) (x y : A) (j : nat) :
  (l ++ [x]) !! j = Some y ->
  ((j < length l)%nat /\ l !! j = Some y) \/ (j = length l /\ y = x).
Proof.
  intros Hj. destruct (decide (j < length l)%nat) as [Hlt|Hge].
  - left. rewrite lookup_app_l in Hj by exact Hlt. auto.
  - right. rewrite lookup_app_r in Hj by lia.
    destruct (j - length l)%nat as [|k] eqn:E; cbn in Hj; [|discriminate].
    split; [lia | congruence].
Qed.

Lemma step_run_invariant (m : gmap Z (list (VenuePoint F)))
    (st st' : DetectionState F) (t : datetime) :
  step st t (default [] (m !! t)) = Ok st' ->
  run_invariant m st -> run_invariant m st'.
Proof.
  intros Hstep (Hl & Hb & Hrec & [Hs0 Hs1] & Hlast).
  destruct (step_ok_inv _ _ _ _ Hstep) as (thin & flash & Hthin & Hflash & ->).
  set (agg := compute_liquidity_weighted_benchmark (default [] (m !! t))) in *.
  unfold run_invariant. cbn [benchmark_history rolling_liq rolling_benchmarks
                              last_update_ts].
  rewrite !length_app. cbn [length].
  split; [lia|]. split; [lia|]. split; [|split].
  - intros j r Hj. apply lookup_snoc_inv in Hj as [[Hlt Hj]|[-> ->]].
    + destruct (Hrec j r Hj) as (H1 & H2 & H3 & H4 & H5).
      unfold record_replayed.
      rewrite !lookup_app_l by lia.
      rewrite !take_app_le by lia. auto.
    + unfold record_replayed. cbn [bp_ts benchmark_price thin_liquidity_flag
                                    flash_loan_flag]. fold agg.
      rewrite <- Hb at 1. rewrite <- Hl at 1.
      rewrite !lookup_app_r by lia. rewrite !Nat.sub_diag. cbn [lookup].
      rewrite !take_ge by (rewrite length_app; cbn; lia).
      auto.
  - split.
    + intros r Hr. apply lookup_snoc_inv in Hr as [[Hlt Hr]|[Hz ->]].
      * apply Hs0. exact Hr.
      * cbn [staleness_flag bp_ts]. unfold consulted_ts.
        unfold last_update_tracks in Hlast.
        destruct (benchmark_history st) as [|x l]; [|discriminate].
        cbn in Hlast. rewrite Hlast. reflexivity.
    + intros j r' r Hr' Hr Hv.
      apply lookup_snoc_inv in Hr as [[Hlt Hr]|[Hz ->]].
      * rewrite lookup_app_l in Hr' by lia. eapply Hs1; eauto.
      * rewrite lookup_app_l in Hr' by lia.
        cbn [staleness_flag bp_ts]. unfold consulted_ts.
        unfold last_update_tracks in Hlast.
        rewrite last_lookup in Hlast. rewrite <- Hz in Hlast. cbn [pred] in Hlast.
        rewrite Hr' in Hlast. rewrite (Hlast Hv). reflexivity.
  - unfold last_update_tracks. cbn [benchmark_history last_update_ts].
    rewrite last_snoc. cbn [benchmark_price bp_ts]. intros ->. reflexivity.
Qed.

Lemma run_loop_run_invariant (m : gmap Z (list (VenuePoint F)))
    (tss : list datetime) (st st' : DetectionState F) :
  run_loop m tss st = Ok st' -> run_invariant m st -> run_invariant m st'.
Proof.
  revert st. induction tss as [|t tss IH]; intros st; cbn.
  - intros [= <-]. auto.
  - destruct (step st t (default [] (m !! t))) as [st1|e1] eqn:E; cbn; [|discriminate].
    intros Hrun Hinv. apply (IH _ Hrun).
    eapply step_run_invariant; eauto.
Qed.

Lemma run_state_invariant (series : list (VenuePoint F)) (st : DetectionState F) :
  run_state series = Ok st -> run_invariant (group_by_ts series) st.
Proof.
  intros Hrun. eapply run_loop_run_invariant; [exact Hrun|].
  apply run_invariant_initial.
Qed.

End RunFacts.

Section RunRecordFacts.
Context {F : Type} `{Float F}.

Lemma run_demo_inv (series : list (VenuePoint F)) (recs : list (BenchmarkPoint F)) :
  run_demo series = Ok recs ->
  exists st, run_state series = Ok st /\ recs = benchmark_history st.
Proof.
  unfold run_demo. destruct (run_state series) as [st|e]; cbn; [|discriminate].
  intros [= <-]. eauto.
Qed.

Lemma run_demo_replayed (series : list (VenuePoint F))
    (recs : list (BenchmarkPoint F)) :
  run_demo series = Ok recs ->
  exists rl rb,
    length rl = length recs /\ length rb = length recs /\
    (forall j r, recs !! j = Some r ->
       record_replayed (group_by_ts series) rl rb j r) /\
    staleness_replayed recs.
Proof.
  intros Hrun. destruct (run_demo_inv _ _ Hrun) as (st & Hst & ->).
  destruct (run_state_invariant _ _ Hst) as (Hl & Hb & Hrec & Hs & _).
  exists (rolling_liq st), (rolling_benchmarks st). auto.
Qed.

Lemma replayed_warm_up (m : gmap Z (list (VenuePoint F))) (rl rb : list F)
    (j : nat) (r : BenchmarkPoint F) :
  record_replayed m rl rb j r ->
  ((j < 9)%nat -> thin_liquidity_flag r = false) /\
  ((j < 2)%nat -> flash_loan_flag r = false).
Proof.
  intros (_ & _ & _ & Hthin & Hflash). split; intros Hj.
  - rewrite thin_cold_start in Hthin; [congruence|].
    rewrite length_take. lia.
  - rewrite flash_short in Hflash; [congruence|].
    rewrite length_take. lia.
Qed.

Lemma window_sentinel_no_flash (l : list F) (thr b : F) (i : nat) :
  l !! i = Some b -> fisnan b = true -> (length l <= i + 3)%nat ->
  detect_flash_loan_pattern l thr = Ok false.
Proof.
  intros Hi Hnan Hlen.
  destruct (le_lt_dec 3 (length l)) as [Hge|Hlt];
    [|apply flash_short; exact Hlt].
  destruct (split_last3 l Hge) as (pre & b0 & b1 & b2 & ->).
  apply flash_nan.
  rewrite length_app in Hlen. cbn [length] in Hlen.
  assert (Hi' : (length pre <= i)%nat) by lia.
  rewrite lookup_app_r in Hi by exact Hi'.
  destruct (i - length pre)%nat as [|[|[|k]]]; cbn in Hi;
    try discriminate; injection Hi as ->; rewrite Hnan;
    rewrite ?orb_true_r; reflexivity.
Qed.

Lemma replayed_sentinel_no_flash (m : gmap Z (list (VenuePoint F)))
    (rl rb : list F) (i j : nat) (r' r : BenchmarkPoint F) :
  record_replayed m rl rb i r' -> record_replayed m rl rb j r ->
  fisnan (benchmark_price r') = true ->
  (i <= j <= i + 2)%nat ->
  flash_loan_flag r = false.
Proof.
  intros (Hi & _ & Hp & _ & _) (_ & _ & _ & _ & Hflash) Hnan Hij.
  rewrite <- Hp in Hi.
  rewrite (window_sentinel_no_flash _ _ (benchmark_price r') i) in Hflash.
  - congruence.
  - rewrite lookup_take_lt by lia. exact Hi.
  - exact Hnan.
  - rewrite length_take. lia.
Qed.

End RunRecordFacts.

Section CausalityFacts.
Context {F : Type} `{Float F}.

Lemma run_loop_app (m : gmap Z (list (VenuePoint F))) (l1 l2 : list datetime)
    (st : DetectionState F) :
  run_loop m (l1 ++ l2) st = run_loop m l1 st ≫= run_loop m l2.
Proof.
  revert st. induction l1 as [|t l1 IH]; intros st; cbn; [reflexivity|].
  destruct (step st t (default [] (m !! t))) as [st1|e]; cbn; [apply IH | reflexivity].
Qed.

Lemma run_loop_ext (m m' : gmap Z (list (VenuePoint F))) (tss : list datetime)
    (st : DetectionState F) :
  (forall t, t ∈ tss -> default [] (m !! t) = default [] (m' !! t)) ->
  run_loop m tss st = run_loop m' tss st.
Proof.
  revert st. induction tss as [|t tss IH]; intros st Hext; cbn; [reflexivity|].
  rewrite (Hext t) by left.
  destruct (step st t (default [] (m' !! t))) as [st1|e]; cbn; [|reflexivity].
  apply IH. intros u Hu. apply Hext. right. exact Hu.
Qed.

Lemma run_loop_history_prefix (m : gmap Z (list (VenuePoint F)))
    (tss : list datetime) (st st' : DetectionState F) :
  run_loop m tss st = Ok st' ->
  exists new, benchmark_history st' = benchmark_history st ++ new.
Proof.
  revert st. induction tss as [|t tss IH]; intros st; cbn.
  - intros [= <-]. exists []. rewrite app_nil_r. reflexivity.
  - destruct (step st t (default [] (m !! t))) as [st1|e1] eqn:E; cbn; [|discriminate].
    intros Hrun. destruct (IH _ Hrun) as [new Hnew].
    destruct (step_ok_inv _ _ _ _ E) as (thin & flash & _ & _ & ->).
    cbn in Hnew. rewrite <- app_assoc in Hnew. eauto.
Qed.

Lemma sorted_keys_app (a b : list (VenuePoint F)) :
  (forall p q, p ∈ a -> q ∈ b -> ts p < ts q) ->
  sorted_keys (group_by_ts (a ++ b)) =
    sorted_keys (group_by_ts a) ++ sorted_keys (group_by_ts b).
Proof.
  intros Hlt.
  assert (Hcross : forall x y, x ∈ sorted_keys (group_by_ts a) ->
                               y ∈ sorted_keys (group_by_ts b) -> x < y).
  { intros x y Hx Hy.
    apply sorted_keys_elem_of, list_elem_of_fmap in Hx as (p & -> & Hp).
    apply sorted_keys_elem_of, list_elem_of_fmap in Hy as (q & -> & Hq).
    auto. }
  apply (StronglySorted_unique Z.le).
  - apply sorted_keys_sorted.
  - apply StronglySorted_app_2; [|apply sorted_keys_sorted..].
    intros x y Hx Hy. specialize (Hcross x y Hx Hy). lia.
  - apply NoDup_Permutation.
    + apply sorted_keys_NoDup.
    + apply NoDup_app. split; [apply sorted_keys_NoDup|].
      split; [|apply sorted_keys_NoDup].
      intros x Hx Hx'. specialize (Hcross x x Hx Hx'). lia.
    + intros x. rewrite elem_of_app, !sorted_keys_elem_of, fmap_app, elem_of_app.
      reflexivity.
Qed.

Lemma group_by_ts_app_l (a b : list (VenuePoint F)) (t : Z) :
  (forall p q, p ∈ a -> q ∈ b -> ts p < ts q) ->
  t ∈ ts <$> a ->
  default [] (group_by_ts (a ++ b) !! t) = default [] (group_by_ts a !! t).
Proof.
  intros Hlt Ht. rewrite !group_by_ts_lookup, filter_app.
  rewrite (filter_none _ b), app_nil_r; [reflexivity|].
  intros q Hq Hts. apply list_elem_of_fmap in Ht as (p & -> & Hp).
  specialize (Hlt p q Hp Hq). lia.
Qed.

(** The pass over [a ++ b] starts with the pass over [a] when every
    timestamp of [a] precedes every timestamp of [b]. *)
Lemma run_state_app (a b : list (VenuePoint F)) :
  (forall p q, p ∈ a -> q ∈ b -> ts p < ts q) ->
  run_state (a ++ b) =
    run_state a ≫=
      run_loop (group_by_ts (a ++ b)) (sorted_keys (group_by_ts b)).
Proof.
  intros Hlt. unfold run_state at 1.
  rewrite (sorted_keys_app a b Hlt), run_loop_app.
  rewrite (run_loop_ext _ (group_by_ts a)); [reflexivity|].
  intros t Ht. apply group_by_ts_app_l; [exact Hlt|].
  apply sorted_keys_elem_of. exact Ht.
Qed.

End CausalityFacts.

(** ** swap_trace_decoder.py: [parse_logs] *)

Section DecoderFacts.
Context {F : Type} `{Float F}.

Lemma parse_log_skipped (r : RawLog F) :
  has_needed_keys r = true -> is_kept r = false -> parse_log r = Decoded None.
Proof.
  unfold has_needed_keys, is_kept, parse_log.
  destruct (raw_event_type r) as [ty|]; cbn; [|discriminate].
  intros _ ->. reflexivity.
Qed.

Lemma parse_log_kept (r : RawLog F) :
  has_needed_keys r = true -> is_kept r = true ->
  exists e, parse_log r = Decoded (Some e) /\
            raw_tx_hash r = Some (tx_hash e) /\
            raw_event_type r = Some (event_type e) /\
            raw_pool r = Some (pool e) /\
            raw_token_in r = Some (token_in e) /\
            raw_token_out r = Some (token_out e) /\
            py_float <$> raw_amount_in r = Some (amount_in e) /\
            py_float <$> raw_amount_out r = Some (amount_out e).
Proof.
  unfold has_needed_keys, is_kept, is_complete, parse_log.
  destruct r as [[tx|] [ty|] [po|] [ti|] [to|] [ai|] [ao|]]; cbn;
    try discriminate;
    intros Hc Hk; rewrite Hk in *; cbn in *; try discriminate.
  eexists. split; [reflexivity|]. cbn. auto 10.
Qed.

Lemma parse_log_returns_inv (r : RawLog F) (o : option (LogEvent F)) :
  parse_log r = Decoded o ->
  has_needed_keys r = true /\ (is_kept r = true <-> is_Some o).
Proof.
  unfold has_needed_keys, is_kept, is_complete, parse_log.
  destruct r as [tx [ty|] po ti to ai ao]; cbn; [|discriminate].
  destruct (String.eqb ty "SWAP" || String.eqb ty "TRANSFER") eqn:Hk; cbn.
  - destruct tx, po, ti, to, ai, ao; cbn; try discriminate.
    intros [= <-]. split; [reflexivity|]. split; eauto.
  - intros [= <-]. split; [reflexivity|].
    split; [discriminate | intros [x Hx]; discriminate].
Qed.

Lemma parse_logs_from_acc (acc : list (LogEvent F)) (raw_logs : list (RawLog F)) :
  parse_logs_from acc raw_logs =
    evs ← parse_logs raw_logs; Decoded (acc ++ evs).
Proof.
  unfold parse_logs. revert acc.
  induction raw_logs as [|r raw_logs IH]; intros acc; cbn.
  - rewrite app_nil_r. reflexivity.
  - destruct (parse_log r) as [[e|]|k]; cbn; [| |reflexivity].
    + rewrite (IH (acc ++ [e])), (IH [e]).
      destruct (parse_logs_from [] raw_logs) as [evs|k]; cbn; [|reflexivity].
      rewrite <- app_assoc. reflexivity.
    + rewrite (IH acc), (IH []).
      destruct (parse_logs_from [] raw_logs) as [evs|k]; reflexivity.
Qed.

Lemma parse_logs_cons (r : RawLog F) (raw_logs : list (RawLog F)) :
  parse_logs (r :: raw_logs) =
    o ← parse_log r; evs ← parse_logs raw_logs;
    Decoded (match o with Some e => e :: evs | None => evs end).
Proof.
  unfold parse_logs at 1. cbn [parse_logs_from].
  destruct (parse_log r) as [[e|]|k]; cbn; [| |reflexivity].
  - rewrite parse_logs_from_acc. reflexivity.
  - rewrite parse_logs_from_acc. destruct (parse_logs raw_logs); reflexivity.
Qed.

Lemma parse_logs_returns_iff (raw_logs : list (RawLog F)) :
  (exists events, parse_logs raw_logs = Decoded events) <->
  Forall (λ r, has_needed_keys r = true) raw_logs.
Proof.
  induction raw_logs as [|r raw_logs IH].
  - split; [constructor | intros _; exists []; reflexivity].
  - rewrite parse_logs_cons, Forall_cons. split.
    + intros [events Hev].
      destruct (parse_log r) as [o|k] eqn:Hr; cbn in Hev; [|discriminate].
      destruct (parse_logs raw_logs) as [evs|k] eqn:Hrest; cbn in Hev;
        [|discriminate].
      split; [exact (proj1 (parse_log_returns_inv _ _ Hr))|].
      apply IH. eauto.
    + intros [Hr Hrest]. apply IH in Hrest as [evs ->].
      destruct (is_kept r) eqn:Hk.
      * destruct (parse_log_kept r Hr Hk) as (e & -> & _). cbn. eauto.
      * rewrite (parse_log_skipped r Hr Hk). cbn. eauto.
Qed.

(** What a completed parse returns, field by field. *)
Lemma parse_logs_fields (raw_logs : list (RawLog F)) (events : list (LogEvent F)) :
  parse_logs raw_logs = Decoded events ->
  let kept := filter (λ r, is_kept r = true) raw_logs in
  Some <$> (tx_hash <$> events) = raw_tx_hash <$> kept /\
  Some <$> (event_type <$> events) = raw_event_type <$> kept /\
  Some <$> (pool <$> events) = raw_pool <$> kept /\
  Some <$> (token_in <$> events) = raw_token_in <$> kept /\
  Some <$> (token_out <$> events) = raw_token_out <$> kept /\
  Some <$> (amount_in <$> events) = (λ r, py_float <$> raw_amount_in r) <$> kept /\
  Some <$> (amount_out <$> events) = (λ r, py_float <$> raw_amount_out r) <$> kept.
Proof.
  revert events. induction raw_logs as [|r raw_logs IH]; intros events.
  - intros [= <-]. cbn. auto 10.
  - rewrite parse_logs_cons. cbv zeta. rewrite filter_cons.
    destruct (parse_log r) as [o|k] eqn:Hr; cbn [mbind decoded_bind];
      [|discriminate].
    destruct (parse_logs raw_logs) as [evs|k] eqn:Hrest; cbn [mbind decoded_bind];
      [|discriminate].
    intros [= <-].
    destruct (parse_log_returns_inv _ _ Hr) as [Hn Hko].
    destruct (IH evs eq_refl) as (H1 & H2 & H3 & H4 & H5 & H6 & H7).
    destruct o as [e|].
    + assert (Hk : is_kept r = true) by (apply Hko; eauto).
      rewrite decide_True by exact Hk.
      destruct (parse_log_kept r Hn Hk)
        as (e' & He' & Ht & Hty & Hp & Hti & Hto & Hai & Hao).
      rewrite Hr in He'. injection He' as <-.
      rewrite !fmap_cons, H1, H2, H3, H4, H5, H6, H7,
        Ht, Hty, Hp, Hti, Hto, Hai, Hao.
      auto 10.
    + assert (Hk : is_kept r ≠ true).
      { intros Hk. apply Hko in Hk. destruct Hk; discriminate. }
      rewrite decide_False by exact Hk. auto 10.
Qed.

Lemma parse_logs_filter_swap (raw_logs : list (RawLog F))
    (events : list (LogEvent F)) :
  parse_logs raw_logs = Decoded events ->
  parse_logs (filter (λ r, is_swap r = true) raw_logs) =
    Decoded (filter (λ e, event_type e = "SWAP") events).
Proof.
  revert events. induction raw_logs as [|r raw_logs IH]; intros events.
  - intros [= <-]. reflexivity.
  - rewrite parse_logs_cons, filter_cons.
    destruct (parse_log r) as [o|k] eqn:Hr; cbn [mbind decoded_bind];
      [|discriminate].
    destruct (parse_logs raw_logs) as [evs|k] eqn:Hrest; cbn [mbind decoded_bind];
      [|discriminate].
    intros [= <-]. specialize (IH evs eq_refl).
    destruct (parse_log_returns_inv _ _ Hr) as [Hn Hko].
    destruct o as [e|].
    + assert (Hk : is_kept r = true) by (apply Hko; eauto).
      destruct (parse_log_kept r Hn Hk) as (e' & He' & _ & Hty & _).
      rewrite Hr in He'. injection He' as <-.
      rewrite filter_cons.
      assert (Hsw : is_swap r = String.eqb (event_type e) "SWAP").
      { unfold is_swap. rewrite Hty. reflexivity. }
      destruct (String.eqb_spec (event_type e) "SWAP") as [Hs|Hs].
      * rewrite decide_True by exact Hsw. rewrite decide_True by exact Hs.
        rewrite parse_logs_cons, Hr, IH. reflexivity.
      * rewrite decide_False by (rewrite Hsw; discriminate).
        rewrite decide_False by exact Hs. exact IH.
    + assert (Hs : is_swap r ≠ true).
      { intros Hs. assert (Hk : is_kept r = true).
        { unfold is_swap in Hs. unfold is_kept.
          destruct (raw_event_type r); [|discriminate]. rewrite Hs. reflexivity. }
        apply Hko in Hk. destruct Hk; discriminate. }
      rewrite decide_False by exact Hs. exact IH.
Qed.

End DecoderFacts.

(** ** swap_trace_decoder.py: the shape of the summary *)

Section SummaryShapeFacts.
Context {F : Type} `{Float F}.

Lemma entry_summarize_is_Some (s : gmap string (gmap string F)) (e : LogEvent F)
    (p k : string) :
  is_Some (entry (summarize_event s e) p k) <->
  is_Some (entry s p k) \/
  (event_type e = "SWAP" /\ pool e = p /\
   (k = token_in e +:+ "_sold" \/ k = token_out e +:+ "_bought")).
Proof.
  destruct (decide (event_type e = "SWAP")) as [He|He].
  - rewrite summarize_event_swap by assumption.
    rewrite !entry_add_flow.
    destruct (decide (p = pool e /\ k = token_out e +:+ "_bought")) as [[-> ->]|H1].
    + split; [intros _; right; auto | eauto].
    + destruct (decide (p = pool e /\ k = token_in e +:+ "_sold")) as [[-> ->]|H2].
      * split; [intros _; right; auto | eauto].
      * split; [auto|]. intros [Hs|(_ & <- & [->| ->])]; [exact Hs | |].
        -- exfalso. apply H2. auto.
        -- exfalso. apply H1. auto.
  - rewrite summarize_event_not_swap by assumption. tauto.
Qed.

Lemma entry_fold_is_Some (events : list (LogEvent F))
    (s : gmap string (gmap string F)) (p k : string) :
  is_Some (entry (foldl summarize_event s events) p k) <->
  is_Some (entry s p k) \/
  exists e, e ∈ events /\ event_type e = "SWAP" /\ pool e = p /\
            (k = token_in e +:+ "_sold" \/ k = token_out e +:+ "_bought").
Proof.
  revert s. induction events as [|e events IH]; intros s.
  - cbn. split; [auto|]. intros [Hs|(e & He & _)]; [exact Hs|].
    apply elem_of_nil in He. contradiction.
  - cbn [foldl]. rewrite IH, entry_summarize_is_Some. split.
    + intros [[Hs|He]|(e' & He' & Hrest)].
      * auto.
      * right. exists e. split; [left|exact He].
      * right. exists e'. split; [right; exact He'|exact Hrest].
    + intros [Hs|(e' & He' & Hrest)]; [auto|].
      apply elem_of_cons in He' as [->|He']; [auto|].
      right. eauto.
Qed.

Lemma dom_summarize_event (s : gmap string (gmap string F)) (e : LogEvent F)
    (p : string) :
  p ∈ dom (summarize_event s e) <->
  p ∈ dom s \/ (event_type e = "SWAP" /\ pool e = p).
Proof.
  destruct (decide (event_type e = "SWAP")) as [He|He].
  - rewrite summarize_event_swap by assumption. unfold add_flow.
    rewrite !dom_insert, !elem_of_union, !elem_of_singleton.
    split; [intros [->|[->|Hs]]; auto | intros [Hs|[_ <-]]; auto].
  - rewrite summarize_event_not_swap by assumption. tauto.
Qed.

Lemma dom_fold_summarize (events : list (LogEvent F))
    (s : gmap string (gmap string F)) (p : string) :
  p ∈ dom (foldl summarize_event s events) <->
  p ∈ dom s \/ exists e, e ∈ events /\ event_type e = "SWAP" /\ pool e = p.
Proof.
  revert s. induction events as [|e events IH]; intros s.
  - cbn. split; [auto|]. intros [Hs|(e & He & _)]; [exact Hs|].
    apply elem_of_nil in He. contradiction.
  - cbn [foldl]. rewrite IH, dom_summarize_event. split.
    + intros [[Hs|He]|(e' & He' & Hrest)].
      * auto.
      * right. exists e. split; [left|exact He].
      * right. exists e'. split; [right; exact He'|exact Hrest].
    + intros [Hs|(e' & He' & Hrest)]; [auto|].
      apply elem_of_cons in He' as [->|He']; [auto|].
      right. eauto.
Qed.

End SummaryShapeFacts.

(** ** oracle_anomaly_demo.py: the aggregator in exact arithmetic *)

Module AggregatorExact.
Import Exact ExactFacts.
Local Open Scope Q_scope.

Lemma Qsum_cons (x : Q) (l : list Q) : Qsum (x :: l) == x + Qsum l.
Proof. unfold Qsum. cbn [foldr]. reflexivity. Qed.

Lemma Qsum_weighted_div (ls ps : list Q) (L : Q) :
  ~ L == 0 ->
  Qsum (zip_with Qmult ((λ l, l / L) <$> ls) ps) * L
    == Qsum (zip_with Qmult ls ps).
Proof.
  intros HL. revert ps. induction ls as [|l ls IH]; intros [|p ps];
    cbn [fmap list_fmap zip_with]; try (unfold Qsum; cbn [foldr]; ring).
  rewrite !Qsum_cons, <- (IH ps). field. exact HL.
Qed.

Lemma Qsum_scale (k : Q) (l : list Q) : Qsum (Qmult k <$> l) == k * Qsum l.
Proof.
  induction l as [|x l IH]; cbn [fmap list_fmap].
  - unfold Qsum; cbn [foldr]. ring.
  - rewrite !Qsum_cons, IH. ring.
Qed.

Lemma Qsum_zip_scale (k : Q) (ls ps : list Q) :
  Qsum (zip_with Qmult (Qmult k <$> ls) ps) == k * Qsum (zip_with Qmult ls ps).
Proof.
  revert ps. induction ls as [|l ls IH]; intros [|p ps];
    cbn [fmap list_fmap zip_with]; try (unfold Qsum; cbn [foldr]; ring).
  rewrite !Qsum_cons, IH. ring.
Qed.

Lemma Qsum_Permutation (l l' : list Q) : l ≡ₚ l' -> Qsum l == Qsum l'.
Proof.
  induction 1 as [|x l l' _ IH|x y l|l l' l'' _ IH1 _ IH2].
  - reflexivity.
  - rewrite !Qsum_cons, IH. reflexivity.
  - rewrite !Qsum_cons. ring.
  - rewrite IH1. exact IH2.
Qed.

Lemma zip_with_fmap_same {A} (f g : A -> Q) (l : list A) :
  zip_with Qmult (f <$> l) (g <$> l) = (λ x, f x * g x) <$> l.
Proof.
  induction l as [|x l IH]; [reflexivity|].
  cbn [fmap list_fmap zip_with]. f_equal. exact IH.
Qed.

(** The benchmark is the quotient of the liquidity-weighted price sum by
    the liquidity sum. *)
Lemma aggregator_ratio (points : list (VenuePoint xq)) (ps ls : list Q) :
  price <$> points = XNum <$> ps ->
  liquidity <$> points = XNum <$> ls ->
  0 < Qsum ls ->
  exists b L : Q,
    compute_liquidity_weighted_benchmark points = (XNum b, XNum L) /\
    L == Qsum ls /\
    b * Qsum ls == Qsum (zip_with Qmult ls ps).
Proof.
  intros Hps Hls Hpos.
  set (L := foldl Qplus (inject_Z 0) ls).
  assert (HL : L == Qsum ls) by apply foldl_from_zero.
  exists (foldl Qplus (inject_Z 0) (zip_with Qmult ((λ l, l / L) <$> ls) ps)), L.
  split; [apply aggregator_exact; assumption|].
  split; [exact HL|].
  rewrite foldl_from_zero, <- HL.
  apply Qsum_weighted_div. lra.
Qed.

(** Numeric venue points, and their rational columns. *)
Lemma numeric_columns (points : list (VenuePoint xq)) :
  Forall (λ p, exists pr l, price p = XNum pr /\ liquidity p = XNum l) points ->
  price <$> points = XNum <$> ((λ p, xq_val (price p)) <$> points) /\
  liquidity <$> points = XNum <$> ((λ p, xq_val (liquidity p)) <$> points).
Proof.
  induction 1 as [|p points (pr & l & Hp & Hl) _ [IH1 IH2]]; [auto|].
  cbn [fmap list_fmap]. rewrite IH1, IH2, Hp, Hl. auto.
Qed.

End AggregatorExact.

(** ** oracle_anomaly_demo.py: the flash-loan detector in exact arithmetic *)

Module FlashExact.
Import Exact ExactFacts MonitorExact.
Local Open Scope Q_scope.

(** On three numbers with a non-zero baseline the detector returns, and
    it flags exactly when the jump reaches the threshold and the middle
    value is nearer the baseline than the last one. *)
Lemma flash_exact_iff (pre : list xq) (b0 b1 b2 thr : Q) :
  ~ b0 == 0 ->
  exists flag,
    detect_flash_loan_pattern (pre ++ [XNum b0; XNum b1; XNum b2]) (XNum thr)
      = Ok flag /\
    (flag = true <->
     thr <= (b2 - b0) / b0 * 100 /\ Qabs (b1 - b0) < Qabs (b2 - b0)).
Proof.
  intros Hb0.
  rewrite flash_decision;
    [|reflexivity|cbn; apply Qeq_bool_false_of_neq; exact Hb0].
  eexists. split; [reflexivity|].
  cbn [fmul fdiv fsub fabs fltb of_Z xq_Float xq_lift2 xq_div xq_cmp xq_abs].
  rewrite (Qeq_bool_false_of_neq b0 Hb0).
  cbn [xq_cmp xq_lift2 xq_abs]. change (inject_Z 100) with 100.
  destruct (Qlt_bool ((b2 - b0) / b0 * 100) thr) eqn:E; cbv iota.
  - apply Qlt_bool_iff in E. split; [discriminate|]. intros [Hle _]. lra.
  - rewrite Qlt_bool_iff. split.
    + intros Hlt. split; [|exact Hlt].
      destruct (Qlt_le_dec ((b2 - b0) / b0 * 100) thr) as [Hc|Hc]; [|exact Hc].
      apply Qlt_bool_iff in Hc. congruence.
    + tauto.
Qed.

End FlashExact.

(** ** oracle_anomaly_demo.py: the thin-liquidity detector *)

Section ThinFacts.
Context {F : Type} `{Float F}.

Lemma np_quantile_invalid (a : list F) (q : F) :
  quantile_is_valid q = false -> np_quantile a q = Raise ValueError.
Proof. intros Hq. unfold np_quantile. rewrite Hq. reflexivity. Qed.

Lemma np_quantile_nan (a : list F) (q : F) :
  quantile_is_valid q = true -> existsb fisnan a = true ->
  np_quantile a q = Ok fnan.
Proof. intros Hq Hnan. unfold np_quantile. rewrite Hq, Hnan. reflexivity. Qed.

Lemma thin_raises_iff (cur : F) (hist : list F) (q : F) (e : exn) :
  detect_thin_liquidity cur hist q = Raise e <->
  (10 <= length hist)%nat /\ quantile_is_valid q = false /\ e = ValueError.
Proof.
  destruct (le_lt_dec 10 (length hist)) as [Hge|Hlt].
  - rewrite thin_warm by exact Hge.
    destruct (quantile_is_valid q) eqn:Hq.
    + destruct (np_quantile_returns hist q Hq) as [v ->]. cbn.
      split; [discriminate | intros (_ & Hf & _); discriminate].
    + rewrite np_quantile_invalid by exact Hq. cbn.
      split; [intros [= <-]; auto | intros (_ & _ & ->); reflexivity].
  - rewrite thin_cold_start by exact Hlt.
    split; [discriminate | intros (Hge & _); lia].
Qed.

End ThinFacts.

Module ThinExact.
Import Exact ExactFacts.
Local Open Scope Q_scope.

Lemma lerp_exact_ge (a b g M : Q) :
  M <= a -> M <= b -> 0 <= g <= 1 ->
  exists r, lerp (XNum a) (XNum b) (XNum g) = XNum r /\ M <= r.
Proof.
  intros Ha Hb [Hg0 Hg1]. unfold lerp.
  cbn [fleb fdiv fsub fadd fmul of_Z xq_Float xq_div xq_cmp xq_lift2].
  replace (Qeq_bool (inject_Z 2) 0) with false by reflexivity.
  cbn [xq_cmp]. change (inject_Z 1) with 1.
  destruct (Qle_bool (1 / inject_Z 2) g); eexists; (split; [reflexivity|]); nra.
Qed.

(** If [M] bounds every sample from below, it bounds the quantile. *)
Lemma np_quantile_exact_ge (hist : list xq) (q M : Q) :
  hist ≠ [] ->
  0 <= q <= 1 ->
  Forall (λ x, exists v, x = XNum v /\ M <= v) hist ->
  exists r, np_quantile hist (XNum q) = Ok (XNum r) /\ M <= r.
Proof.
  intros Hne [Hq0 Hq1] Hall. unfold np_quantile, quantile_is_valid.
  cbn [fleb of_Z xq_Float xq_cmp].
  assert (Hv : Qle_bool (inject_Z 0) q && Qle_bool q (inject_Z 1) = true).
  { apply andb_true_iff. split; apply Qle_bool_iff; assumption. }
  rewrite Hv. cbn [negb].
  rewrite existsb_isnan_exact
    by (eapply Forall_impl; [exact Hall|]; intros x (v & -> & _); eauto).
  set (arr := merge_sort _ hist).
  assert (Hperm : arr ≡ₚ hist) by apply merge_sort_Permutation.
  assert (Hlen : length arr = length hist) by (rewrite Hperm; reflexivity).
  assert (Hn : (0 < length hist)%nat) by (destruct hist; [contradiction | cbn; lia]).
  assert (Hnth : forall i, (i < length hist)%nat ->
                   exists v, nth i arr XNaN = XNum v /\ M <= v).
  { intros i Hi.
    assert (Hin : nth i arr XNaN ∈ hist).
    { rewrite <- Hperm. apply list_elem_of_In, nth_In. lia. }
    rewrite Forall_forall in Hall. apply Hall in Hin. exact Hin. }
  set (n := Z.of_nat (length hist)).
  cbn [fmul fsub fnan ffloor xq_Float xq_lift2 xq_floor xq_cmp].
  fold n. set (vi := inject_Z (n - 1) * q).
  assert (Hvi0 : 0 <= vi).
  { unfold vi. apply Qmult_le_0_compat; [|exact Hq0].
    change 0 with (inject_Z 0). rewrite <- Zle_Qle. lia. }
  assert (Hg : 0 <= vi - inject_Z (Qfloor vi) <= 1).
  { pose proof (Qfloor_le vi). pose proof (Qlt_floor vi) as Hlt.
    rewrite inject_Z_plus in Hlt. change (inject_Z 1) with 1 in Hlt. lra. }
  assert (Hf0 : (0 <= Qfloor vi)%Z).
  { pose proof (Qlt_floor vi) as Hlt.
    assert (Hlt' : inject_Z 0 < inject_Z (Qfloor vi + 1)) by (change (inject_Z 0) with 0; lra).
    rewrite <- Zlt_Qlt in Hlt'. lia. }
  destruct (Qle_bool (inject_Z (n - 1)) vi) eqn:Habove.
  - destruct (Hnth (Z.to_nat (n - 1))) as (a & Ha & HaM); [lia|].
    rewrite Ha.
    destruct (lerp_exact_ge a a _ M HaM HaM Hg) as (r & -> & Hr). eauto.
  - apply Qle_bool_false_iff in Habove.
    assert (Hf1 : (Qfloor vi < n - 1)%Z).
    { rewrite Zlt_Qlt. pose proof (Qfloor_le vi). lra. }
    destruct (Hnth (Z.to_nat (Qfloor vi))) as (a & Ha & HaM); [lia|].
    destruct (Hnth (Z.to_nat (Qfloor vi + 1))) as (b & Hb & HbM); [lia|].
    rewrite Ha, Hb.
    destruct (lerp_exact_ge a b _ M HaM HbM Hg) as (r & -> & Hr). eauto.
Qed.

End ThinExact.

(** ** oracle_anomaly_demo.py: the generated series *)

Section GeneratorFacts.
Context {F : Type} `{Float F} {G : Type}.
Variables gauss uniform : F -> F -> G -> F * G.

Lemma venue_observation_key (t : datetime) (step_price : F)
    (i fs fe : Z) (v : string) (g : G) :
  let p := fst (venue_observation gauss uniform t step_price i fs fe v g) in
  ts p = t /\ venue p = v.
Proof.
  unfold venue_observation.
  repeat match goal with
         | |- context [String.eqb ?a ?b] => destruct (String.eqb a b)
         | |- context [gauss ?a ?b ?g] => destruct (gauss a b g)
         | |- context [uniform ?a ?b ?g] => destruct (uniform a b g)
         | |- context [(?a <=? ?b) && ?c] => destruct ((a <=? b) && c)
         end; cbn; auto.
Qed.

Lemma observe_venues_keys (t : datetime) (step_price : F) (i fs fe : Z)
    (results : list (VenuePoint F)) (g : G) :
  (λ p, (ts p, venue p)) <$>
    (fst (observe_venues gauss uniform t step_price i fs fe results g))
  = ((λ p, (ts p, venue p)) <$> results) ++ ((λ v, (t, v)) <$> venues).
Proof.
  unfold observe_venues, venues. cbn [foldl].
  pose proof (venue_observation_key t step_price i fs fe "CEX_A" g) as H1.
  destruct (venue_observation gauss uniform t step_price i fs fe "CEX_A" g)
    as [p1 g1]. cbn in H1.
  pose proof (venue_observation_key t step_price i fs fe "CEX_B" g1) as H2.
  destruct (venue_observation gauss uniform t step_price i fs fe "CEX_B" g1)
    as [p2 g2]. cbn in H2.
  pose proof (venue_observation_key t step_price i fs fe "DEX_POOL" g2) as H3.
  destruct (venue_observation gauss uniform t step_price i fs fe "DEX_POOL" g2)
    as [p3 g3]. cbn in H3.
  cbn [fst]. rewrite !fmap_app. cbn [fmap list_fmap].
  destruct H1 as [-> ->], H2 as [-> ->], H3 as [-> ->].
  rewrite <- !app_assoc. reflexivity.
Qed.

Lemma generate_steps_keys (start : datetime) (d ns : F) (fs fe : Z)
    (idx : list Z) (st : F * list (VenuePoint F) * G) :
  (λ p, (ts p, venue p)) <$>
    (snd (fst (foldl (generate_step gauss uniform start d ns fs fe) st idx)))
  = ((λ p, (ts p, venue p)) <$> snd (fst st)) ++
    (t ← (λ i, start + i * 10 * 1000000) <$> idx; (λ v, (t, v)) <$> venues).
Proof.
  revert st. induction idx as [|i idx IH]; intros [[sp results] g].
  - cbn. rewrite app_nil_r. reflexivity.
  - cbn [foldl]. rewrite IH. clear IH.
    unfold generate_step at 1.
    destruct (gauss (of_Z 0) ns g) as [x g1].
    pose proof (observe_venues_keys (start + i * 10 * 1000000)
                  (fadd sp (fadd d x)) i fs fe results g1) as Hk.
    destruct (observe_venues _ _ _ _ _ _ _ _ _) as [results' g2].
    cbn [fst snd] in *. rewrite Hk, fmap_cons, bind_cons, <- app_assoc.
    reflexivity.
Qed.

(** Whatever is drawn, the series carries the expected timestamps and
    venues, in order. *)
Lemma generated_keys (start : datetime) (n : Z) (bp d ns : F) (g : G) :
  (λ p, (ts p, venue p)) <$>
    fst (generate_synthetic_series gauss uniform start n bp d ns g)
  = expected_keys start n.
Proof.
  unfold generate_synthetic_series, expected_keys, step_timestamps.
  cbv zeta.
  pose proof (generate_steps_keys start d ns
                (ffloor (fmul (of_Z n) (fdiv (of_Z 55) (of_Z 100))))
                (ffloor (fmul (of_Z n) (fdiv (of_Z 55) (of_Z 100))) + 3)
                (seqZ 0 n) (bp, [], g)) as Hk.
  destruct (foldl _ _ _) as [[sp results] g']. exact Hk.
Qed.

Lemma expected_keys_ts (start : datetime) (n : Z) (t : Z) :
  t ∈ (expected_keys start n).*1 <-> t ∈ step_timestamps start n.
Proof.
  unfold expected_keys. generalize (step_timestamps start n). intros l.
  induction l as [|u l IH].
  - cbn. reflexivity.
  - rewrite bind_cons, fmap_app, elem_of_app, IH, elem_of_cons.
    cbn. rewrite !elem_of_cons, elem_of_nil. tauto.
Qed.

Lemma step_timestamps_lookup (start : datetime) (n : Z) (j : nat) (t : Z) :
  step_timestamps start n !! j = Some t ->
  t = start + Z.of_nat j * 10 * 1000000.
Proof.
  unfold step_timestamps. rewrite list_lookup_fmap.
  destruct (seqZ 0 n !! j) as [i|] eqn:E; [|discriminate].
  apply lookup_seqZ in E as [-> _]. cbn. intros [= <-]. lia.
Qed.

Lemma step_timestamps_sorted (start : datetime) (n : Z) :
  StronglySorted Z.lt (step_timestamps start n).
Proof.
  unfold step_timestamps, seqZ. rewrite <- list_fmap_compose.
  generalize (Z.to_nat n). intros k. generalize 0%nat.
  induction k as [|k IH]; intros m; cbn; constructor; [apply IH|].
  apply Forall_fmap, Forall_forall. intros j Hj.
  apply elem_of_seq in Hj. cbn. lia.
Qed.

Lemma StronglySorted_lt_le (l : list Z) :
  StronglySorted Z.lt l -> StronglySorted Z.le l /\ NoDup l.
Proof.
  induction 1 as [|x l Hs [IH1 IH2] Hx]; [split; constructor|].
  split.
  - constructor; [exact IH1|]. eapply Forall_impl; [exact Hx|]. cbn. lia.
  - constructor; [|exact IH2]. rewrite Forall_forall in Hx.
    intros Hin. specialize (Hx x Hin). lia.
Qed.

(** The loop visits the step timestamps, in order. *)
Lemma generated_sorted_keys (start : datetime) (n : Z) (bp d ns : F) (g : G) :
  sorted_keys (group_by_ts
    (fst (generate_synthetic_series gauss uniform start n bp d ns g)))
  = step_timestamps start n.
Proof.
  destruct (StronglySorted_lt_le _ (step_timestamps_sorted start n)) as [Hs Hnd].
  apply (StronglySorted_unique Z.le); [apply sorted_keys_sorted | exact Hs|].
  apply NoDup_Permutation; [apply sorted_keys_NoDup | exact Hnd|].
  intros t. rewrite sorted_keys_elem_of, <- expected_keys_ts.
  rewrite <- (generated_keys start n bp d ns g).
  rewrite <- list_fmap_compose. reflexivity.
Qed.

End GeneratorFacts.

(** * Further properties, by source file *)

Import MonitorExact.

(** X1: [compute_divergence_points] emits one point for every
    index present in all three inputs - as many as the shortest input has -
    in input order; the point at index i carries the i-th timestamp and the
    i-th two prices, their percentage deviation (dp - cp) / cp * 100, and the
    flag "threshold <= |deviation|". *)
Theorem divergence_points_zip (ts_list : list Z) (cex dex : list float64)
    (thr : float64) :
  length (compute_divergence_points ts_list cex dex thr) =
    (length ts_list `min` (length cex `min` length dex))%nat /\
  (forall i p,
     compute_divergence_points ts_list cex dex thr !! i = Some p ->
     ts_list !! i = Some (dv_ts p) /\
     cex !! i = Some (cex_price p) /\
     dex !! i = Some (dex_price p) /\
     deviation_pct p =
       fmul (fdiv (fsub (dex_price p) (cex_price p)) (cex_price p)) (of_Z 100) /\
     flagged p = fleb thr (fabs (deviation_pct p))).
Proof.
  split; [apply divergence_points_length|].
  intros i p Hp. rewrite divergence_points_lookup in Hp.
  destruct (ts_list !! i) as [t|]; [|discriminate].
  destruct (cex !! i) as [cp|]; [|discriminate].
  destruct (dex !! i) as [dp|]; [|discriminate].
  injection Hp as <-. cbn. auto.
Qed.

Lemma divergence_points_zip_witness :
  exists p,
    compute_divergence_points [0; 20000000] [of_Z 2000; of_Z 2001]
      [of_Z 2100 : float64] default_warn_threshold_pct !! 0%nat = Some p /\
    dv_ts p = 0 /\ flagged p = true.
Proof.
  eexists. split; [reflexivity|].
  destruct (divergence_points_zip [0; 20000000] [of_Z 2000; of_Z 2001]
              [of_Z 2100 : float64] default_warn_threshold_pct) as [_ Hp].
  destruct (Hp 0%nat _ eq_refl) as (Hts & _ & _ & _ & Hflag).
  split; [reflexivity|].
  rewrite Hflag. vm_compute. reflexivity.
Defined.







(** X5: the division is numpy's and never raises.  In binary64,
    at a CEX price of zero a finite non-zero DEX price gives an infinite
    deviation and is flagged at every threshold that is not NaN, while a DEX
    price of zero gives a NaN deviation and is never flagged. *)
Theorem divergence_zero_cex_price (t : Z) (s0 : bool) (thr : float64) :
  (forall s m e,
     fisnan thr = false ->
     flagged (divergence_point t (S754_zero s0) (S754_finite s m e) thr) = true /\
     fabs (deviation_pct
             (divergence_point t (S754_zero s0) (S754_finite s m e) thr))
       = S754_infinity false) /\
  (forall s,
     flagged (divergence_point t (S754_zero s0) (S754_zero s) thr) = false /\
     fisnan (deviation_pct
               (divergence_point t (S754_zero s0) (S754_zero s) thr)) = true).
Proof.
  split.
  - intros s m e Hthr. split.
    + destruct thr as [[|]|[|]| |[|] mt et], s, s0; try discriminate Hthr; reflexivity.
    + destruct s, s0; reflexivity.
  - intros s. split.
    + destruct thr as [[|]|[|]| |[|] mt et], s, s0; reflexivity.
    + destruct s, s0; reflexivity.
Qed.

Lemma divergence_zero_cex_price_witness :
  flagged (divergence_point 0 (of_Z 0 : float64) (of_Z 2000)
             default_warn_threshold_pct) = true.
Proof.
  destruct (divergence_zero_cex_price 0 false default_warn_threshold_pct)
    as [Hinf _].
  exact (proj1 (Hinf false 8796093022208000%positive (-42) eq_refl)).
Defined.

Import SwapExact.











(** X11: in binary64, a swap of amount 0.0 against a pool with
    positive finite reserves is a no-op whenever the retained share
    [1 - fee_bps / 10000] is a positive finite number: both reserves come
    back bit for bit and the amount out is +0.0. *)
Theorem zero_size_swap_is_noop (mi mo mg : positive) (ei eo eg : Z)
    (fee_bps : float64) :
  fsub (of_Z 1) (fdiv fee_bps (of_Z 10000)) = S754_finite false mg eg ->
  uniswap_v2_swap (F:=float64) (S754_finite false mi ei)
      (S754_finite false mo eo) (of_Z 0) fee_bps
    = Ok (S754_finite false mi ei, S754_finite false mo eo, of_Z 0).
Proof.
  intros Hg. unfold uniswap_v2_swap. cbv zeta. rewrite Hg. reflexivity.
Qed.

Lemma zero_size_swap_is_noop_witness :
  uniswap_v2_swap (F:=float64) (of_Z 100) (of_Z 200000) (of_Z 0) (of_Z 30)
    = Ok (of_Z 100, of_Z 200000, of_Z 0).
Proof.
  exact (zero_size_swap_is_noop 7036874417766400 6871947673600000
           8980177656976769 (-46) (-35) (-53) (of_Z 30) eq_refl).
Defined.



(** X13: in a completed run every record's benchmark price is
    the aggregator's answer on exactly the observations of the input that
    carry the record's timestamp, taken in input order. *)
Theorem record_benchmark_is_group_aggregate
    (series : list (VenuePoint float64)) (recs : list (BenchmarkPoint float64))
    (r : BenchmarkPoint float64) :
  run_demo series = Ok recs -> r ∈ recs ->
  benchmark_price r =
    fst (compute_liquidity_weighted_benchmark
           (filter (λ p, ts p = bp_ts r) series)).
Proof.
  intros Hrun Hr.
  destruct (run_demo_replayed _ _ Hrun) as (rl & rb & _ & _ & Hrec & _).
  apply list_elem_of_lookup in Hr as [j Hj].
  destruct (Hrec j r Hj) as (_ & _ & Hp & _).
  rewrite group_by_ts_lookup in Hp. exact Hp.
Qed.

Lemma record_benchmark_is_group_aggregate_witness :
  let p : VenuePoint float64 :=
    {| ts := 0; venue := "CEX_A"; price := of_Z 2000; liquidity := of_Z 5 |} in
  let q : VenuePoint float64 :=
    {| ts := 10000000; venue := "CEX_A"; price := of_Z 2001;
       liquidity := of_Z 5 |} in
  let r : BenchmarkPoint float64 :=
    {| bp_ts := 10000000; benchmark_price := of_Z 2001;
       staleness_flag := false; thin_liquidity_flag := false;
       flash_loan_flag := false |} in
  benchmark_price r =
    fst (compute_liquidity_weighted_benchmark
           (filter (λ x, ts x = bp_ts r) [q; p])).
Proof.
  intros p q r.
  apply (record_benchmark_is_group_aggregate [q; p]
           [ {| bp_ts := 0; benchmark_price := of_Z 2000;
                staleness_flag := false; thin_liquidity_flag := false;
                flash_loan_flag := false |}; r ]).
  - vm_compute. reflexivity.
  - apply list_elem_of_lookup. exists 1%nat. reflexivity.
Defined.

(** X14: in a completed run the first record is never stale,
    the first nine records never carry the thin-liquidity flag and the
    first two never carry the flash-loan flag, whatever the observations
    are. *)
Theorem warm_up_records_unflagged
    (series : list (VenuePoint float64)) (recs : list (BenchmarkPoint float64))
    (j : nat) (r : BenchmarkPoint float64) :
  run_demo series = Ok recs -> recs !! j = Some r ->
  (j = 0%nat -> staleness_flag r = false) /\
  ((j < 9)%nat -> thin_liquidity_flag r = false) /\
  ((j < 2)%nat -> flash_loan_flag r = false).
Proof.
  intros Hrun Hj.
  destruct (run_demo_replayed _ _ Hrun) as (rl & rb & _ & _ & Hrec & Hs0 & _).
  split.
  - intros ->. rewrite (Hs0 r Hj). rewrite staleness_unfold, Z.sub_diag.
    vm_compute. reflexivity.
  - exact (replayed_warm_up _ _ _ _ _ (Hrec j r Hj)).
Qed.

Lemma warm_up_records_unflagged_witness :
  let p : VenuePoint float64 :=
    {| ts := 0; venue := "CEX_A"; price := of_Z 2000; liquidity := of_Z 0 |} in
  let r : BenchmarkPoint float64 :=
    {| bp_ts := 0; benchmark_price := fnan;
       staleness_flag := false; thin_liquidity_flag := false;
       flash_loan_flag := false |} in
  run_demo [p] = Ok [r] /\
  (0%nat = 0%nat -> staleness_flag r = false) /\
  ((0 < 9)%nat -> thin_liquidity_flag r = false) /\
  ((0 < 2)%nat -> flash_loan_flag r = false).
Proof.
  intros p r.
  assert (Hrun : run_demo [p] = Ok [r]) by (vm_compute; reflexivity).
  split; [exact Hrun|].
  exact (warm_up_records_unflagged [p] [r] 0 r Hrun eq_refl).
Defined.

(** X15: in a completed run, a record whose benchmark is the
    NaN sentinel never carries the flash-loan flag, and neither do the two
    records after it: the sentinel silences the detector for as long as it
    stays in the three-point window. *)
Theorem sentinel_silences_flash_window
    (series : list (VenuePoint float64)) (recs : list (BenchmarkPoint float64))
    (i j : nat) (r' r : BenchmarkPoint float64) :
  run_demo series = Ok recs ->
  recs !! i = Some r' -> fisnan (benchmark_price r') = true ->
  recs !! j = Some r -> (i <= j <= i + 2)%nat ->
  flash_loan_flag r = false.
Proof.
  intros Hrun Hi Hnan Hj Hij.
  destruct (run_demo_replayed _ _ Hrun) as (rl & rb & _ & _ & Hrec & _).
  exact (replayed_sentinel_no_flash _ _ _ _ _ _ _
           (Hrec i r' Hi) (Hrec j r Hj) Hnan Hij).
Qed.

Lemma sentinel_silences_flash_window_witness :
  let v (t : Z) (pr l : Z) : VenuePoint float64 :=
    {| ts := t; venue := "DEX_X"; price := of_Z pr; liquidity := of_Z l |} in
  let series := [v 0 100 5; v 10000000 101 5; v 20000000 100 0;
                 v 30000000 200 5] in
  exists recs r' r,
    run_demo series = Ok recs /\
    recs !! 2%nat = Some r' /\ fisnan (benchmark_price r') = true /\
    recs !! 3%nat = Some r /\ flash_loan_flag r = false.
Proof.
  intros v series.
  destruct (run_demo series) as [recs|e] eqn:Hrun;
    [|vm_compute in Hrun; discriminate].
  destruct (recs !! 2%nat) as [r'|] eqn:H2;
    [|vm_compute in Hrun; injection Hrun as <-; discriminate].
  destruct (recs !! 3%nat) as [r|] eqn:H3;
    [|vm_compute in Hrun; injection Hrun as <-; discriminate].
  assert (Hnan : fisnan (benchmark_price r') = true).
  { vm_compute in Hrun. injection Hrun as <-.
    injection H2 as <-. reflexivity. }
  exists recs, r', r. repeat split; try assumption.
  apply (sentinel_silences_flash_window series recs 2 3 r' r Hrun H2 Hnan H3).
  lia.
Defined.

(** X16: the run is causal. When every observation of [b] is
    later than every observation of [a], the records of a completed run on
    [a ++ b] begin with exactly the records of the run on [a]: later
    observations never change an earlier record; and if the run on [a]
    raises, the run on [a ++ b] raises the same exception. *)
Theorem later_observations_keep_earlier_records
    (a b : list (VenuePoint float64)) :
  (forall p q, p ∈ a -> q ∈ b -> ts p < ts q) ->
  (forall recs, run_demo (a ++ b) = Ok recs ->
     exists early late, recs = early ++ late /\ run_demo a = Ok early) /\
  (forall e, run_demo a = Raise e -> run_demo (a ++ b) = Raise e).
Proof.
  intros Hlt. unfold run_demo. rewrite (run_state_app a b Hlt).
  destruct (run_state a) as [sa|e] eqn:Ha; cbn.
  - split; [|discriminate].
    intros recs Hrun.
    destruct (run_loop _ _ sa) as [st|e] eqn:Hb; cbn in Hrun; [|discriminate].
    injection Hrun as <-.
    destruct (run_loop_history_prefix _ _ _ _ Hb) as [new Hnew].
    exists (benchmark_history sa), new. auto.
  - split; [discriminate|]. intros e' [= <-]. reflexivity.
Qed.

Lemma later_observations_keep_earlier_records_witness :
  let v (t : Z) (pr l : Z) : VenuePoint float64 :=
    {| ts := t; venue := "DEX_X"; price := of_Z pr; liquidity := of_Z l |} in
  let a := [v 10000000 101 5; v 0 100 5] in
  let b := [v 20000000 100 0; v 30000000 200 5] in
  (forall recs, run_demo (a ++ b) = Ok recs ->
     exists early late, recs = early ++ late /\ run_demo a = Ok early) /\
  (forall e, run_demo a = Raise e -> run_demo (a ++ b) = Raise e).
Proof.
  intros v a b.
  apply (later_observations_keep_earlier_records a b).
  intros p q Hp Hq.
  repeat (apply elem_of_cons in Hp as [->|Hp]);
    [| |apply elem_of_nil in Hp; contradiction];
    repeat (apply elem_of_cons in Hq as [->|Hq]);
    try (apply elem_of_nil in Hq; contradiction); cbn; lia.
Defined.





(** X19: the events a completed [parse_logs] returns are, in
    input order, the records typed "SWAP" or "TRANSFER" and no others, one
    event per such record, with the five string fields copied unchanged
    and the two amounts passed through [float]. *)
Theorem parse_logs_keeps_swaps_and_transfers
    (raw_logs : list (RawLog float64)) (events : list (LogEvent float64)) :
  parse_logs raw_logs = Decoded events ->
  let kept := filter (λ r, is_kept r = true) raw_logs in
  Some <$> (tx_hash <$> events) = raw_tx_hash <$> kept /\
  Some <$> (event_type <$> events) = raw_event_type <$> kept /\
  Some <$> (pool <$> events) = raw_pool <$> kept /\
  Some <$> (token_in <$> events) = raw_token_in <$> kept /\
  Some <$> (token_out <$> events) = raw_token_out <$> kept /\
  Some <$> (amount_in <$> events) = (λ r, py_float <$> raw_amount_in r) <$> kept /\
  Some <$> (amount_out <$> events) = (λ r, py_float <$> raw_amount_out r) <$> kept.
Proof. apply parse_logs_fields. Qed.

Lemma parse_logs_keeps_swaps_and_transfers_witness :
  let mint : RawLog float64 :=
    {| raw_tx_hash := None; raw_event_type := Some "MINT"; raw_pool := None;
       raw_token_in := None; raw_token_out := None;
       raw_amount_in := None; raw_amount_out := None |} in
  let swap : RawLog float64 :=
    {| raw_tx_hash := Some "0xabc1"; raw_event_type := Some "SWAP";
       raw_pool := Some "POOL_ETH_USDC"; raw_token_in := Some "ETH";
       raw_token_out := Some "USDC"; raw_amount_in := Some (PyInt 1);
       raw_amount_out := Some (PyInt 2400) |} in
  let e : LogEvent float64 :=
    {| tx_hash := "0xabc1"; event_type := "SWAP"; pool := "POOL_ETH_USDC";
       token_in := "ETH"; token_out := "USDC";
       amount_in := of_Z 1; amount_out := of_Z 2400 |} in
  Some <$> (amount_out <$> [e]) =
    (λ r, py_float <$> raw_amount_out r)
      <$> filter (λ r, is_kept r = true) [mint; swap].
Proof.
  intros mint swap e.
  apply (parse_logs_keeps_swaps_and_transfers [mint; swap] [e] eq_refl).
Defined.

(** X20: the summary [run_decoder] prints depends only on the
    records typed "SWAP": when decoding and summarising a list of raw logs
    succeeds, doing the same to its SWAP records alone succeeds with the
    same summary. *)
Theorem summary_ignores_non_swap_logs
    (raw_logs : list (RawLog float64))
    (summary : gmap string (gmap string float64)) :
  decode_and_summarize raw_logs = Decoded summary ->
  decode_and_summarize (filter (λ r, is_swap r = true) raw_logs)
    = Decoded summary.
Proof.
  unfold decode_and_summarize.
  destruct (parse_logs raw_logs) as [events|k] eqn:Hp; cbn; [|discriminate].
  intros [= <-].
  rewrite (parse_logs_filter_swap _ _ Hp). cbn.
  rewrite <- summarize_swaps_filter. reflexivity.
Qed.

Lemma summary_ignores_non_swap_logs_witness :
  let mk (ty : string) : RawLog float64 :=
    {| raw_tx_hash := Some "0xabc1"; raw_event_type := Some ty;
       raw_pool := Some "POOL_ETH_USDC"; raw_token_in := Some "ETH";
       raw_token_out := Some "USDC"; raw_amount_in := Some (PyInt 1);
       raw_amount_out := Some (PyInt 2400) |} in
  exists summary,
    decode_and_summarize [mk "TRANSFER"; mk "SWAP"] = Decoded summary /\
    decode_and_summarize [mk "SWAP"] = Decoded summary.
Proof.
  intros mk. eexists. split; [reflexivity|].
  apply (summary_ignores_non_swap_logs [mk "TRANSFER"; mk "SWAP"]).
  reflexivity.
Defined.

(** X21: the summary has an entry for a pool exactly when
    some SWAP event names that pool, and inside a pool's entry a key is
    present exactly when it is "<token>_sold" for a token some SWAP event
    of the pool sells or "<token>_bought" for a token one buys: no other
    pool and no other key ever appears. *)
Theorem summary_pools_and_keys (events : list (LogEvent float64))
    (p k : string) :
  (p ∈ dom (summarize_swaps events) <->
   exists e, e ∈ events /\ event_type e = "SWAP" /\ pool e = p) /\
  (is_Some (entry (summarize_swaps events) p k) <->
   exists e, e ∈ events /\ event_type e = "SWAP" /\ pool e = p /\
             (k = token_in e +:+ "_sold" \/ k = token_out e +:+ "_bought")).
Proof.
  unfold summarize_swaps. split.
  - rewrite dom_fold_summarize, dom_empty, elem_of_empty. tauto.
  - rewrite entry_fold_is_Some. unfold entry at 1.
    rewrite lookup_empty. cbn. rewrite lookup_empty.
    split; [intros [[x Hx]|He]; [discriminate | exact He] | auto].
Qed.

Lemma summary_pools_and_keys_witness :
  let swap : LogEvent float64 :=
    {| tx_hash := "0xabc1"; event_type := "SWAP"; pool := "POOL_ETH_USDC";
       token_in := "ETH"; token_out := "USDC";
       amount_in := of_Z 1; amount_out := of_Z 2400 |} in
  "POOL_ETH_USDC" ∈ dom (summarize_swaps [swap]) /\
  is_Some (entry (summarize_swaps [swap]) "POOL_ETH_USDC" "USDC_bought").
Proof.
  intros swap.
  destruct (summary_pools_and_keys [swap] "POOL_ETH_USDC" "USDC_bought")
    as [Hd Hk].
  split.
  - apply Hd. exists swap. split; [left|]. auto.
  - apply Hk. exists swap. split; [left|]. auto.
Defined.

Import AggregatorExact.







Import FlashExact.





Import ThinExact.

(** X27: the thin-liquidity detector raises only ValueError,
    and exactly when the history has at least ten samples and the quantile
    level is not in [0, 1] (a NaN level included): during the cold start
    an invalid level goes unnoticed. *)
Theorem thin_detector_raises_iff (cur : float64) (hist : list float64)
    (q : float64) (e : exn) :
  detect_thin_liquidity cur hist q = Raise e <->
  (10 <= length hist)%nat /\ quantile_is_valid q = false /\ e = ValueError.
Proof. apply thin_raises_iff. Qed.

Lemma thin_detector_raises_iff_witness :
  detect_thin_liquidity (F:=float64) (of_Z 5) (replicate 10 (of_Z 100)) (of_Z 2)
    = Raise ValueError /\
  detect_thin_liquidity (F:=float64) (of_Z 5) (replicate 9 (of_Z 100)) (of_Z 2)
    = Ok false.
Proof.
  split.
  - apply (proj2 (thin_detector_raises_iff (of_Z 5) (replicate 10 (of_Z 100))
                    (of_Z 2) ValueError)).
    repeat split. cbn. lia.
  - vm_compute. reflexivity.
Defined.

(** X28: in binary64, once the history holds ten samples, a
    single NaN among them switches the detector off: with a valid quantile
    level it answers false for every current value. *)
Theorem thin_detector_nan_history (cur : float64) (hist : list float64)
    (q : float64) :
  (10 <= length hist)%nat -> quantile_is_valid q = true ->
  existsb fisnan hist = true ->
  detect_thin_liquidity cur hist q = Ok false.
Proof.
  intros Hlen Hq Hnan. rewrite thin_warm by exact Hlen.
  rewrite np_quantile_nan by assumption. cbn.
  destruct cur as [s| | |s m e']; reflexivity.
Qed.

Lemma thin_detector_nan_history_witness :
  detect_thin_liquidity (F:=float64) (of_Z 0)
    (replicate 9 (of_Z 100) ++ [fnan]) default_quantile_threshold = Ok false.
Proof.
  apply (thin_detector_nan_history (of_Z 0) (replicate 9 (of_Z 100) ++ [fnan])
           default_quantile_threshold).
  - cbn. lia.
  - vm_compute. reflexivity.
  - reflexivity.
Defined.



(** X30: whatever the random draws, the series
    [generate_synthetic_series] returns has three observations per step,
    for CEX_A, CEX_B and DEX_POOL in that order, at the timestamps
    start + 10 s * i for i = 0 .. n_points - 1.  Hence a completed run on a
    generated series has one record per step, at those timestamps, and a
    record that follows a record with a numeric benchmark is never stale:
    the steps are 10 seconds apart and the threshold is 40. *)
Theorem generated_series_run {G : Type}
    (gauss uniform : float64 -> float64 -> G -> float64 * G)
    (start : datetime) (n_points : Z) (base_price drift noise : float64)
    (g : G) :
  let series :=
    fst (generate_synthetic_series gauss uniform start n_points
           base_price drift noise g) in
  (λ p, (ts p, venue p)) <$> series = expected_keys start n_points /\
  (forall recs, run_demo series = Ok recs ->
     bp_ts <$> recs = step_timestamps start n_points /\
     forall j r' r,
       recs !! j = Some r' -> recs !! S j = Some r ->
       fisnan (benchmark_price r') = false ->
       staleness_flag r = false).
Proof.
  intros series. split; [apply generated_keys|].
  intros recs Hrun.
  assert (Hts : bp_ts <$> recs = step_timestamps start n_points).
  { destruct (run_demo_inv _ _ Hrun) as (st & Hst & ->).
    destruct (run_loop_histories _ _ _ _ Hst) as (Hh & _ & _).
    cbn in Hh. rewrite Hh. apply generated_sorted_keys. }
  split; [exact Hts|].
  intros j r' r Hj HSj Hv.
  destruct (run_demo_replayed _ _ Hrun) as (_ & _ & _ & _ & _ & _ & Hs).
  rewrite (Hs j r' r Hj HSj Hv), staleness_unfold.
  assert (H1 : bp_ts r' = start + Z.of_nat j * 10 * 1000000).
  { apply (step_timestamps_lookup start n_points).
    rewrite <- Hts, list_lookup_fmap, Hj. reflexivity. }
  assert (H2 : bp_ts r = start + Z.of_nat (S j) * 10 * 1000000).
  { apply (step_timestamps_lookup start n_points).
    rewrite <- Hts, list_lookup_fmap, HSj. reflexivity. }
  replace (bp_ts r - bp_ts r') with 10000000 by lia.
  vm_compute. reflexivity.
Qed.

Lemma generated_series_run_witness :
  let gauss (mu sigma : float64) (g : unit) := (mu, g) in
  let uniform (a b : float64) (g : unit) := (a, g) in
  let series :=
    fst (generate_synthetic_series gauss uniform 0 2 default_base_price
           default_drift_per_step default_noise_std tt) in
  exists recs, run_demo series = Ok recs /\ bp_ts <$> recs = [0; 10000000].
Proof.
  intros gauss uniform series.
  destruct (run_demo series) as [recs|e] eqn:Hrun;
    [|vm_compute in Hrun; discriminate].
  exists recs. split; [reflexivity|].
  destruct (generated_series_run gauss uniform 0 2 default_base_price
              default_drift_per_step default_noise_std tt) as [_ Hr].
  exact (proj1 (Hr recs Hrun)).
Defined.
